(** * Response rendering and interactive-data pipeline

    A shallow embedding of the chat-message renderer
    (frontend/components/ChatMessage: code-block classification, the
    automatic-execution gate, the table extractor, the query-execution
    coordinator), of the SQL complexity scorer (SqlRenderer) and of the
    data visualizer (numeric-column inference, CSV export).

    Modelling conventions.
    - A JavaScript string is a [string]: a sequence of 8-bit code units.
      The case mappings and the white-space class are those of the ASCII
      range; text with code units beyond 0x7F is carried along unchanged.
    - A JavaScript number is a [number]: NaN, the two infinities, or a
      finite value kept as the exact rational it denotes.
    - [any]-typed values are [JsVal]; objects are association lists in
      insertion order.
    - Code that may throw lives in the [completion] monad. *)

From Stdlib Require Import Bool Arith ZArith QArith Qabs Lia List.
From Stdlib Require Import Ascii String.
Import ListNotations.

Close Scope Q_scope.
Open Scope string_scope.

(** ** JavaScript string primitives *)

Module JsString.

Definition char_code (c : ascii) : nat := nat_of_ascii c.

Definition between (lo hi : nat) (c : ascii) : bool :=
  (lo <=? char_code c)%nat && (char_code c <=? hi)%nat.

Definition is_upper : ascii -> bool := between 65 90.
Definition is_lower : ascii -> bool := between 97 122.
Definition is_digit : ascii -> bool := between 48 57.

(** [\w] of a regular expression: [A-Za-z0-9_]. *)
Definition is_word (c : ascii) : bool :=
  is_upper c || is_lower c || is_digit c || Ascii.eqb c "_".

(** White space and line terminators stripped by [String.prototype.trim]:
    TAB, LF, VT, FF, CR and SPACE. *)
Definition is_space (c : ascii) : bool :=
  between 9 13 c || Ascii.eqb c " ".

Definition upper_char (c : ascii) : ascii :=
  if is_lower c then ascii_of_nat (char_code c - 32) else c.

Definition lower_char (c : ascii) : ascii :=
  if is_upper c then ascii_of_nat (char_code c + 32) else c.

Fixpoint map_chars (f : ascii -> ascii) (s : string) : string :=
  match s with
  | EmptyString => EmptyString
  | String c r => String (f c) (map_chars f r)
  end.

Definition toUpperCase : string -> string := map_chars upper_char.
Definition toLowerCase : string -> string := map_chars lower_char.

(** [s.startsWith(p)] *)
Fixpoint startsWith (s p : string) {struct p} : bool :=
  match p, s with
  | EmptyString, _ => true
  | String a p', String b s' => Ascii.eqb a b && startsWith s' p'
  | String _ _, EmptyString => false
  end.

(** [s.includes(p)] *)
Fixpoint includes (s p : string) : bool :=
  startsWith s p ||
  match s with
  | EmptyString => false
  | String _ r => includes r p
  end.

Fixpoint trimStart (s : string) : string :=
  match s with
  | EmptyString => EmptyString
  | String c r => if is_space c then trimStart r else s
  end.

Fixpoint trimEnd (s : string) : string :=
  match s with
  | EmptyString => EmptyString
  | String c r =>
      match trimEnd r with
      | EmptyString => if is_space c then EmptyString else String c EmptyString
      | r' => String c r'
      end
  end.

(** [s.trim()] *)
Definition trim (s : string) : string := trimEnd (trimStart s).

Definition all_chars (p : ascii -> bool) (s : string) : bool :=
  forallb p (list_ascii_of_string s).

(** [parts.join(sep)] on an array of strings. *)
Fixpoint join (sep : string) (parts : list string) : string :=
  match parts with
  | [] => ""
  | [x] => x
  | x :: rest => x ++ sep ++ join sep rest
  end.

(** [s.split(sep)] for a one-character separator. *)
Fixpoint split (sep : ascii) (s : string) : list string :=
  match s with
  | EmptyString => [""]
  | String c r =>
      if Ascii.eqb c sep then "" :: split sep r
      else match split sep r with
           | [] => [String c ""]
           | x :: xs => String c x :: xs
           end
  end.

(** When the test of a prefix succeeds, the remainder after it. *)
Fixpoint stripPrefix (p s : string) : option string :=
  match p, s with
  | EmptyString, _ => Some s
  | String a p', String b s' =>
      if Ascii.eqb a b then stripPrefix p' s' else None
  | String _ _, EmptyString => None
  end.

(** Two characters are the same up to letter case. *)
Definition same_letter (a b : ascii) : bool :=
  Ascii.eqb a b
  || (is_lower a && Ascii.eqb b (upper_char a))
  || (is_upper a && Ascii.eqb b (lower_char a)).

(** Two strings are equal when case is ignored. *)
Fixpoint ci_equal (s t : string) : bool :=
  match s, t with
  | EmptyString, EmptyString => true
  | String a s', String b t' => same_letter a b && ci_equal s' t'
  | _, _ => false
  end.

End JsString.

Import JsString.

(** ** Code-block classifier (ChatMessage, [code] renderer) *)

Inductive Kind := KSql | KDiagram | KGeneric | KPlain.

(** The longest run of [\w] characters at the head of a string. *)
Fixpoint takeWord (s : string) : string :=
  match s with
  | EmptyString => EmptyString
  | String c r => if is_word c then String c (takeWord r) else EmptyString
  end.

(** [/language-(\w+)/.exec(cn)]: the first position where ["language-"] is
    followed by a word character; the group is the whole run of word
    characters found there. *)
Fixpoint exec_language (cn : string) : option string :=
  let here :=
    match stripPrefix "language-" cn with
    | Some rest =>
        match takeWord rest with
        | EmptyString => None
        | w => Some w
        end
    | None => None
    end in
  match here with
  | Some w => Some w
  | None =>
      match cn with
      | EmptyString => None
      | String _ r => exec_language r
      end
  end.

(** The branch taken by the [code] renderer: MermaidRenderer, SqlRenderer
    with its result area, the labelled dark box, or the inline [<code>]. *)
Definition classify (className : option string) : Kind :=
  let m := exec_language (match className with Some c => c | None => "" end) in
  let tagIs (name : string) :=
    match m with
    | Some t => String.eqb (toLowerCase t) name
    | None => false
    end in
  let isSql := tagIs "sql" in
  let isMongodb := tagIs "mongodb" in
  let isMermaid := tagIs "mermaid" in
  if isMermaid then KDiagram
  else if isSql || isMongodb then KSql
  else match m with
       | Some _ => KGeneric
       | None => KPlain
       end.

(** The class name the [code] renderer receives for a fence with language
    tag [t]: ["language-" + t], and none when the fence has no tag.  This
    is the convention of the markdown library that calls the renderer, the
    one the expression [/language-(\w+)/] is written for. *)
Definition classNameOfTag (tag : option string) : option string :=
  option_map (append "language-") tag.

(** The classification as the specification words it, on the tag itself. *)
Definition spec_classify (tag : option string) : Kind :=
  match tag with
  | None => KPlain
  | Some t =>
      let l := toLowerCase t in
      if String.eqb l "sql" || String.eqb l "mongodb" then KSql
      else if String.eqb l "mermaid" then KDiagram
      else if String.eqb t "" then KPlain
      else KGeneric
  end.

(** ** Automatic-execution gate (ChatMessage, auto-run effect) *)

(** [sql.toUpperCase().startsWith('SELECT') || sql.toUpperCase().startsWith('WITH')] *)
Definition readOnlyPrefix (sql : string) : bool :=
  startsWith (toUpperCase sql) "SELECT" || startsWith (toUpperCase sql) "WITH".

(** The test applied to the text [s] captured from the message:
    [s && (sql = s.trim(), readOnlyPrefix(sql))]. *)
Definition eligible (s : string) : bool :=
  negb (String.eqb s "") && readOnlyPrefix (trim s).


(** ** Complexity scorer (SqlRenderer) *)

Inductive Tier := Simple | Intermediate | Complex.

Definition score (code : string) : nat :=
  let upper := toUpperCase code in
  let score := 0%nat in
  let score := if includes upper "JOIN" then score + 2 else score in
  let score := if includes upper "GROUP BY" then score + 1 else score in
  let score := if includes upper "HAVING" then score + 2 else score in
  let score := if includes upper "WITH" then score + 2 else score in
  let score := if includes upper "UNION" then score + 2 else score in
  let score :=
    if includes upper "SELECT" && includes upper "WHERE" then score + 1 else score in
  score.

Definition complexity (code : string) : Tier :=
  let score := score code in
  if (score <? 3)%nat then Simple
  else if (score <? 6)%nat then Intermediate
  else Complex.

(** [code] contains, ignoring case, the keyword [k]. *)
Definition ci_contains (code k : string) : Prop :=
  exists pre mid post, code = pre ++ mid ++ post /\ ci_equal mid k = true.





(** A language tag made of word characters only (or no tag at all). *)
Definition word_tag (tag : option string) : Prop :=
  match tag with
  | None => True
  | Some t => all_chars is_word t = true
  end.

(** ** Regular expressions that must match a whole string *)

Module Regex.

Inductive regex :=
| Eps                                  (* the empty word *)
| Chr (p : ascii -> bool)              (* one character of a class *)
| Seq (r1 r2 : regex)
| Alt (r1 r2 : regex)
| Star (r : regex).

Definition Opt (r : regex) : regex := Alt Eps r.       (* r? *)
Definition Plus (r : regex) : regex := Seq r (Star r). (* r+ *)
Definition Lit (c : ascii) : regex := Chr (Ascii.eqb c).

(** The language of a regular expression. *)
Inductive Matches : regex -> string -> Prop :=
| MEps : Matches Eps ""
| MChr p c : p c = true -> Matches (Chr p) (String c "")
| MSeq r1 r2 s1 s2 : Matches r1 s1 -> Matches r2 s2 -> Matches (Seq r1 r2) (s1 ++ s2)
| MAltL r1 r2 s : Matches r1 s -> Matches (Alt r1 r2) s
| MAltR r1 r2 s : Matches r2 s -> Matches (Alt r1 r2) s
| MStar0 r : Matches (Star r) ""
| MStarS r s1 s2 : Matches r s1 -> Matches (Star r) s2 -> Matches (Star r) (s1 ++ s2).

(** An executable matcher: residuals of the expression, character by
    character.  [None] is the expression that matches nothing. *)
Fixpoint nullable (r : regex) : bool :=
  match r with
  | Eps => true
  | Chr _ => false
  | Seq r1 r2 => nullable r1 && nullable r2
  | Alt r1 r2 => nullable r1 || nullable r2
  | Star _ => true
  end.

Definition alt (a b : option regex) : option regex :=
  match a, b with
  | Some x, Some y => Some (Alt x y)
  | Some x, None => Some x
  | None, y => y
  end.

Definition seq_r (a : option regex) (r : regex) : option regex :=
  option_map (fun x => Seq x r) a.

Fixpoint residual (c : ascii) (r : regex) : option regex :=
  match r with
  | Eps => None
  | Chr p => if p c then Some Eps else None
  | Seq r1 r2 =>
      alt (seq_r (residual c r1) r2)
          (if nullable r1 then residual c r2 else None)
  | Alt r1 r2 => alt (residual c r1) (residual c r2)
  | Star r1 => seq_r (residual c r1) (Star r1)
  end.

(** [re.test(s)] for an expression anchored at both ends. *)
Fixpoint test (r : regex) (s : string) : bool :=
  match s with
  | EmptyString => nullable r
  | String c s' =>
      match residual c r with
      | Some r' => test r' s'
      | None => false
      end
  end.

End Regex.

(** ** Numbers *)

Inductive number :=
| NaN
| Infinity (negative : bool)
| Finite (q : Q).

Definition isNaN (n : number) : bool :=
  match n with NaN => true | _ => false end.

(** [isFinite] on a number. *)
Definition numberIsFinite (n : number) : bool :=
  match n with Finite _ => true | _ => false end.

Module NumberParsing.

Local Open Scope Z_scope.

(** Magnitudes from this bound on have no finite double: they round to
    an infinity (2^1024 - 2^970). *)
Definition overflow_bound : Z := 2 ^ 1024 - 2 ^ 970.

(** The number denoted by the exact value [q]. *)
Definition number_of (q : Q) : number :=
  if Qle_bool (inject_Z overflow_bound) (Qabs q)
  then Infinity (negb (Qle_bool 0 q))
  else Finite (Qred q).

Definition digit_value (c : ascii) : Z := Z.of_nat (char_code c) - 48.

(** The value of a run of digits in base [base], most significant first. *)
Fixpoint digits_value (base : Z) (acc : Z) (ds : string) (val : ascii -> Z) : Z :=
  match ds with
  | EmptyString => acc
  | String c r => digits_value base (base * acc + val c) r val
  end.

(** The longest prefix whose characters satisfy [p], and what follows. *)
Fixpoint span (p : ascii -> bool) (s : string) : string * string :=
  match s with
  | EmptyString => ("", "")
  | String c r =>
      if p c then let (a, b) := span p r in (String c a, b)
      else ("", s)
  end.

Definition pow10 (e : Z) : Q :=
  if 0 <=? e then inject_Z (10 ^ e) else Qinv (inject_Z (10 ^ (- e))).

(** ExponentPart: [e] or [E], an optional sign and at least one digit.
    Returns the exponent and the rest; without digits there is no
    exponent part and nothing is consumed. *)
Definition exponent_part (s : string) : Z * string :=
  match s with
  | String c r =>
      if Ascii.eqb c "e" || Ascii.eqb c "E" then
        let '(neg, r1) :=
          match r with
          | String "+" r' => (false, r')
          | String "-" r' => (true, r')
          | _ => (false, r)
          end in
        let (ds, r2) := span is_digit r1 in
        match ds with
        | EmptyString => (0, s)
        | _ => let e := digits_value 10 0 ds digit_value in
               ((if neg then - e else e), r2)
        end
      else (0, s)
  | EmptyString => (0, s)
  end.

(** StrUnsignedDecimalLiteral without [Infinity]: the longest prefix of
    the form digits [.digits] [exponent] or [.digits] [exponent]; its
    exact value and the rest of the string. *)
Definition unsigned_decimal (s : string) : option (Q * string) :=
  let (ip, r1) := span is_digit s in
  let '(fp, r2, dot) :=
    match r1 with
    | String "." r => let (f, r') := span is_digit r in (f, r', true)
    | _ => ("", r1, false)
    end in
  match ip, fp with
  | EmptyString, EmptyString => None
  | _, _ =>
      let (e, r3) := exponent_part r2 in
      let mant := digits_value 10 0 (ip ++ fp) digit_value in
      Some (Qmult (inject_Z mant) (pow10 (e - Z.of_nat (String.length fp))), r3)
  end.

(** StrDecimalLiteral: optional sign, then [Infinity] or a decimal
    literal.  The prefix read as a number, and the rest. *)
Definition decimal_literal (s : string) : option (number * string) :=
  let '(neg, body) :=
    match s with
    | String "+" r => (false, r)
    | String "-" r => (true, r)
    | _ => (false, s)
    end in
  match stripPrefix "Infinity" body with
  | Some rest => Some (Infinity neg, rest)
  | None =>
      match unsigned_decimal body with
      | Some (q, rest) => Some (number_of (if neg then Qopp q else q), rest)
      | None => None
      end
  end.

(** [parseFloat(s)]: leading white space is skipped, then the longest
    prefix that is a decimal literal is read; NaN when there is none. *)
Definition parseFloat (s : string) : number :=
  match decimal_literal (trimStart s) with
  | Some (n, _) => n
  | None => NaN
  end.

Definition is_hex_digit (c : ascii) : bool :=
  is_digit c || between 97 102 c || between 65 70 c.

Definition hex_value (c : ascii) : Z :=
  if is_digit c then digit_value c
  else if between 97 102 c then Z.of_nat (char_code c) - 87
  else Z.of_nat (char_code c) - 55.

(** NonDecimalIntegerLiteral: [0x], [0o] or [0b] and at least one digit
    of that base, nothing else. *)
Definition non_decimal_literal (s : string) : option number :=
  let radix (p : ascii -> bool) (base : Z) (val : ascii -> Z) (ds : string) :=
    match ds with
    | EmptyString => None
    | _ => if all_chars p ds
           then Some (number_of (inject_Z (digits_value base 0 ds val)))
           else None
    end in
  match s with
  | String "0" (String c ds) =>
      if Ascii.eqb c "x" || Ascii.eqb c "X" then radix is_hex_digit 16 hex_value ds
      else if Ascii.eqb c "o" || Ascii.eqb c "O" then radix (between 48 55) 8 digit_value ds
      else if Ascii.eqb c "b" || Ascii.eqb c "B" then radix (between 48 49) 2 digit_value ds
      else None
  | _ => None
  end.

(** [Number(s)] on a string: white space around is ignored, the empty
    string is 0, and the whole of what remains must be a numeric
    literal. *)
Definition stringToNumber (s : string) : number :=
  let t := trim s in
  match t with
  | EmptyString => Finite 0
  | _ =>
      match non_decimal_literal t with
      | Some n => n
      | None =>
          match decimal_literal t with
          | Some (n, EmptyString) => n
          | _ => NaN
          end
      end
  end.

End NumberParsing.

Import NumberParsing.

(** ** Values of type [any] *)

(** Finite trees of data: the primitives, arrays and plain objects. *)
#[warnings="-register-all"]
Inductive JsVal :=
| JUndefined
| JNull
| JBool (b : bool)
| JNum (n : number)
| JStr (s : string)
| JArr (items : list JsVal)
| JObj (props : list (string * JsVal)).

(** An object: its own properties, in insertion order.  Properties
    inherited from [Object.prototype] and the special key [__proto__] are
    not part of the model. *)
Definition JsObject : Type := list (string * JsVal).

(** [o[name]] on the own properties of an object. *)
Fixpoint lookupProp (name : string) (o : JsObject) : JsVal :=
  match o with
  | [] => JUndefined
  | (k, v) :: rest => if String.eqb k name then v else lookupProp name rest
  end.

(** [o[name] = v]: overwrite where the key exists, else add at the end. *)
Fixpoint setProp (name : string) (v : JsVal) (o : JsObject) : JsObject :=
  match o with
  | [] => [(name, v)]
  | (k, w) :: rest =>
      if String.eqb k name then (k, v) :: rest else (k, w) :: setProp name v rest
  end.

(** ToBoolean. *)
Definition truthy (v : JsVal) : bool :=
  match v with
  | JUndefined | JNull => false
  | JBool b => b
  | JNum NaN => false
  | JNum (Infinity _) => true
  | JNum (Finite q) => negb (Qeq_bool q 0)
  | JStr s => negb (String.eqb s "")
  | JArr _ | JObj _ => true
  end.

(** [a || b] *)
Definition or_else (a b : JsVal) : JsVal := if truthy a then a else b.

(** [v === "s"] for a string constant. *)
Definition isString (v : JsVal) (s : string) : bool :=
  match v with
  | JStr t => String.eqb t s
  | _ => false
  end.

(** ** Completions: code that may throw *)

Inductive completion (A : Type) : Type :=
| Normal (a : A)
| Throw (err : string).

Arguments Normal {A} a.
Arguments Throw {A} err.

Definition bind {A B} (c : completion A) (k : A -> completion B) : completion B :=
  match c with
  | Normal a => k a
  | Throw e => Throw e
  end.

(** [try { c } catch (e) { h(e) }] *)
Definition try_catch {A} (c : completion A) (h : string -> completion A) : completion A :=
  match c with
  | Normal a => Normal a
  | Throw e => h e
  end.

Declare Scope js_scope.
Delimit Scope js_scope with js.
Notation "x <- c ;; k" := (bind c (fun x => k))
  (at level 61, c at next level, right associativity) : js_scope.
Notation "' pat <- c ;; k" := (bind c (fun x => match x with pat => k end))
  (at level 61, pat pattern, c at next level, right associativity) : js_scope.

(** [v.name] for the properties this program reads ([type], [value],
    [children], [tagName]): a TypeError on [undefined] and [null], the own
    property of an object, and [undefined] on arrays and primitives, which
    carry none of them. *)
Definition getMember (v : JsVal) (name : string) : completion JsVal :=
  match v with
  | JUndefined | JNull => Throw "TypeError: cannot read properties of undefined or null"
  | JObj props => Normal (lookupProp name props)
  | _ => Normal JUndefined
  end.

Section Rendering.

(** Number::toString on finite values is the decimal printer of the
    language; it stays a parameter of the development. *)
Variable FiniteToString : Q -> string.

Definition NumberToString (n : number) : string :=
  match n with
  | NaN => "NaN"
  | Infinity false => "Infinity"
  | Infinity true => "-Infinity"
  | Finite q => FiniteToString q
  end.

(** ToString; the items of an array are joined by commas, [undefined]
    and [null] items giving the empty string. *)
Fixpoint ToString (v : JsVal) : string :=
  match v with
  | JUndefined => "undefined"
  | JNull => "null"
  | JBool true => "true"
  | JBool false => "false"
  | JNum n => NumberToString n
  | JStr s => s
  | JArr items =>
      join "," (map (fun x => match x with
                              | JUndefined | JNull => ""
                              | _ => ToString x
                              end) items)
  | JObj _ => "[object Object]"
  end.

(** [items.join(sep)] on an array of arbitrary values. *)
Definition joinValues (sep : string) (items : list JsVal) : string :=
  join sep (map (fun x => match x with
                          | JUndefined | JNull => ""
                          | _ => ToString x
                          end) items).

(** ToNumber. *)
Definition ToNumber (v : JsVal) : number :=
  match v with
  | JUndefined => NaN
  | JNull => Finite 0
  | JBool true => Finite 1
  | JBool false => Finite 0
  | JNum n => n
  | JStr s => stringToNumber s
  | JArr _ | JObj _ => stringToNumber (ToString v)
  end.

(** The global [parseFloat(v)] and [isFinite(v)]. *)
Definition parseFloatOf (v : JsVal) : number := parseFloat (ToString v).
Definition isFinite (v : JsVal) : bool := numberIsFinite (ToNumber v).

(** *** Table extractor (ChatMessage, [extractTableData]) *)

(** [getText]: the text below a node, depth first and left to right.
    The recursion is on the [children] array found among the properties
    of the node. *)
Fixpoint getText (n : JsVal) : JsVal :=
  match n with
  | JObj props =>
      if isString (lookupProp "type" props) "text"
      then or_else (lookupProp "value" props) (JStr "")
      else
        (fix children_of (ps : list (string * JsVal)) : JsVal :=
           match ps with
           | [] => JStr ""
           | (k, v) :: rest =>
               if String.eqb k "children" then
                 match v with
                 | JArr items => JStr (joinValues "" (map getText items))
                 | _ => JStr ""
                 end
               else children_of rest
           end) props
  | _ => JStr ""
  end.

(** [v.trim()]: only a string has the method. *)
Definition callTrim (v : JsVal) : completion string :=
  match v with
  | JStr s => Normal (trim s)
  | JUndefined | JNull => Throw "TypeError: cannot read properties of undefined or null"
  | _ => Throw "TypeError: trim is not a function"
  end.

(** [c.tagName === tag], the predicate of every [find] and [filter]. *)
Definition hasTag (tag : string) (c : JsVal) : completion bool :=
  (t <- getMember c "tagName" ;; Normal (isString t tag))%js.

Fixpoint findTag (tag : string) (items : list JsVal) : completion JsVal :=
  match items with
  | [] => Normal JUndefined
  | c :: rest =>
      (b <- hasTag tag c ;;
       if b then Normal c else findTag tag rest)%js
  end.

Fixpoint filterTag (tag : string) (items : list JsVal) : completion (list JsVal) :=
  match items with
  | [] => Normal []
  | c :: rest =>
      (b <- hasTag tag c ;;
       kept <- filterTag tag rest ;;
       Normal (if b then c :: kept else kept))%js
  end.

(** [v.find(c => c.tagName === tag)]: [v] must be an array. *)
Definition callFind (v : JsVal) (tag : string) : completion JsVal :=
  match v with
  | JArr items => findTag tag items
  | JUndefined | JNull => Throw "TypeError: cannot read properties of undefined or null"
  | _ => Throw "TypeError: find is not a function"
  end.

(** [v.filter(c => c.tagName === tag)]: [v] must be an array. *)
Definition callFilter (v : JsVal) (tag : string) : completion (list JsVal) :=
  match v with
  | JArr items => filterTag tag items
  | JUndefined | JNull => Throw "TypeError: cannot read properties of undefined or null"
  | _ => Throw "TypeError: filter is not a function"
  end.

(** [items.map(f)] for an [f] that may throw. *)
Fixpoint mapM {A B} (f : A -> completion B) (items : list A) : completion (list B) :=
  match items with
  | [] => Normal []
  | x :: rest =>
      (y <- f x ;; ys <- mapM f rest ;; Normal (y :: ys))%js
  end.

(** [textValue.replace(/,/g, "")] *)
Fixpoint removeCommas (s : string) : string :=
  match s with
  | EmptyString => EmptyString
  | String c r => if Ascii.eqb c "," then removeCommas r else String c (removeCommas r)
  end.

(** [/^-?[\d,]+(\.\d+)?$/] *)
Definition numeric_re : Regex.regex :=
  Regex.Seq (Regex.Opt (Regex.Lit "-"))
    (Regex.Seq (Regex.Plus (Regex.Chr (fun c => is_digit c || Ascii.eqb c ",")))
               (Regex.Opt (Regex.Seq (Regex.Lit ".") (Regex.Plus (Regex.Chr is_digit))))).

(** The value stored for a cell whose trimmed text is [textValue]. *)
Definition coerceCell (textValue : string) : JsVal :=
  let value := JStr textValue in
  let cleanNum := removeCommas textValue in
  let num := parseFloat cleanNum in
  if negb (isNaN num) && numberIsFinite num then
    if Regex.test numeric_re textValue then JNum num else value
  else value.

(** [cells.forEach((cell, index) => ...)] filling [rowData]. *)
Fixpoint fillRow (headers : list string) (cells : list JsVal) (index : nat)
         (rowData : JsObject) : completion JsObject :=
  match cells with
  | [] => Normal rowData
  | cell :: rest =>
      match nth_error headers index with
      | Some header =>                          (* index < headers.length *)
          (textValue <- callTrim (getText cell) ;;
           fillRow headers rest (S index) (setProp header (coerceCell textValue) rowData))%js
      | None => fillRow headers rest (S index) rowData
      end
  end.

Record Dataset := { headers : list string; data : list JsObject }.

(** The body of the [try] block. *)
Definition extractTableData_body (node : JsVal) : completion (option Dataset) :=
  (nodeChildren <- getMember node "children" ;;
   let children := or_else nodeChildren (JArr []) in
   thead <- callFind children "thead" ;;
   tbody <- callFind children "tbody" ;;
   if negb (truthy thead) then Normal None else
   theadChildren <- getMember thead "children" ;;
   headerRow <- match theadChildren with
                | JUndefined | JNull => Normal JUndefined       (* [?.] *)
                | _ => callFind theadChildren "tr"
                end ;;
   if negb (truthy headerRow) then Normal None else
   headerRowChildren <- getMember headerRow "children" ;;
   headerCells <- callFilter headerRowChildren "th" ;;
   headers <- mapM (fun th => callTrim (getText th)) headerCells ;;
   if (List.length headers =? 0)%nat then Normal None else
   dataRows <- (if truthy tbody
                then (tbodyChildren <- getMember tbody "children" ;;
                      callFilter tbodyChildren "tr")
                else Normal []) ;;
   data <- mapM (fun row =>
                   rowChildren <- getMember row "children" ;;
                   cells <- callFilter rowChildren "td" ;;
                   fillRow headers cells 0 []) dataRows ;;
   if (List.length data =? 0)%nat then Normal None else
   Normal (Some {| headers := headers; data := data |}))%js.

(** [extractTableData]: whatever the body throws is caught and becomes
    [null]. *)
Definition extractTableData (node : JsVal) : completion (option Dataset) :=
  try_catch (extractTableData_body node) (fun _ => Normal None).

End Rendering.

(** Syntax-tree nodes as the markdown renderer builds them. *)
Definition element (tagName : string) (children : list JsVal) : JsVal :=
  JObj [("type", JStr "element"); ("tagName", JStr tagName);
        ("properties", JObj []); ("children", JArr children)].

Definition text (value : string) : JsVal :=
  JObj [("type", JStr "text"); ("value", JStr value)].

(** A decimal printer, to run the definitions on examples: sign, integer
    part and, for a value that is not an integer, up to seventeen digits
    after the point. *)
Module Printer.

Local Open Scope Z_scope.

Definition digit_char (d : Z) : ascii := ascii_of_nat (Z.to_nat (48 + d)).

Fixpoint nat_digits (fuel : nat) (n : Z) (acc : string) : string :=
  match fuel with
  | O => acc
  | S f =>
      let acc' := String (digit_char (n mod 10)) acc in
      if n / 10 =? 0 then acc' else nat_digits f (n / 10) acc'
  end.

Definition print_nat (n : Z) : string := nat_digits (Z.to_nat (Z.log2 n) + 1) n "".

Fixpoint frac_digits (fuel : nat) (num den : Z) : string :=
  match fuel with
  | O => ""
  | S f =>
      if num =? 0 then ""
      else String (digit_char (10 * num / den)) (frac_digits f ((10 * num) mod den) den)
  end.

Definition printFinite (q : Q) : string :=
  let n := Z.abs (Qnum q) in
  let d := Zpos (Qden q) in
  let whole := print_nat (n / d) in
  let frac := frac_digits 17 (n mod d) d in
  ((if (Qnum q <? 0)%Z then "-" else "") ++ whole
   ++ match frac with EmptyString => "" | _ => "." ++ frac end)%string.

End Printer.

(** ** Data visualizer (DataVisualizer) *)

(** The line feed and the double quote, as one-character strings. *)
Definition LF : ascii := "010"%char.
Definition newline : string := String LF "".
Definition dquote : string := String "034"%char "".

Section Visualizer.

Variable FiniteToString : Q -> string.

(** [!isNaN(parseFloat(val)) && isFinite(val)] *)
Definition finiteNumeric (val : JsVal) : bool :=
  negb (isNaN (parseFloatOf FiniteToString val)) && isFinite FiniteToString val.

(** [data[0]?.[h]] *)
Definition firstRowValue (data : list JsObject) (h : string) : JsVal :=
  match nth_error data 0 with
  | Some row => lookupProp h row
  | None => JUndefined
  end.

Definition numericKeys (headers : list string) (data : list JsObject) : list string :=
  filter (fun h => finiteNumeric (firstRowValue data h)) headers.

(** The text built by [handleDownload]. *)
Definition csvContent (headers : list string) (data : list JsObject) : string :=
  join newline
       (join "," headers
        :: map (fun row =>
                  join "," (map (fun h => dquote ++ ToString FiniteToString (lookupProp h row) ++ dquote)
                                headers))
               data).

End Visualizer.

(** ** Query-execution coordinator (ChatMessage) *)

Record DbConnection := {
  host : string;
  port : Z;
  username : string;
  password : string;
  database : string;
  type : string;
  connection_string : option string
}.

Record DbContext := {
  connection : DbConnection;
  schema : string;
  selectedModel : string;
  apiKey : option string
}.

Inductive Role := user | assistant.

Record Message := {
  id : string;
  role : Role;
  content : string;
  timestamp : nat
}.

(** What [executeQuery] resolves to. *)
Record QueryResponse := {
  success : bool;
  columns : option (list string);
  rows : option (list JsObject);
  error : option string
}.

(** How the awaited call ends: with a response, or with an exception whose
    [String(err)] is given. *)
Inductive Outcome :=
| Fulfilled (result : QueryResponse)
| Rejected (err : string).

(** The state [executionResult] of the component. *)
Record ExecutionResult := {
  result_headers : list string;
  result_data : list JsObject;
  result_error : option string
}.

(** The value [handleRunQuery] stores once the awaited call has ended. *)
Definition resultOf (o : Outcome) : ExecutionResult :=
  match o with
  | Fulfilled result =>
      match success result, columns result, rows result with
      | true, Some cols, Some rws =>
          {| result_headers := cols; result_data := rws; result_error := None |}
      | _, _, _ =>
          {| result_headers := []; result_data := [];
             result_error :=
               Some (match error result with
                     | Some e => if String.eqb e "" then "Unknown error occurred" else e
                     | None => "Unknown error occurred"
                     end) |}
      end
  | Rejected err =>
      {| result_headers := []; result_data := []; result_error := Some err |}
  end.

(** One call of [executeQuery(connection, sql)]. *)
Record BackendCall := {
  call_connection : DbConnection;
  call_sql : string
}.

(** The state of one mounted ChatMessage.  Calls are numbered in the order
    they are issued; [pending] holds the calls still awaited.  [autoRuns]
    and [settled] are bookkeeping for the statements below: the calls the
    effect issued, and the results stored, in the order they arrived. *)
Record ChatState := {
  isExecuting : bool;
  executionResult : option ExecutionResult;
  hasAutoRun : bool;
  calls : list BackendCall;
  pending : list nat;
  autoRuns : list nat;
  settled : list (nat * ExecutionResult)
}.

Definition mounted : ChatState :=
  {| isExecuting := false; executionResult := None; hasAutoRun := false;
     calls := []; pending := []; autoRuns := []; settled := [] |}.

(** [handleRunQuery(sql)] up to its [await]. *)
Definition handleRunQuery (dbContext : option DbContext) (sql : string)
           (st : ChatState) : ChatState :=
  match dbContext with
  | None => st
  | Some ctx =>
      {| isExecuting := true;
         executionResult := None;
         hasAutoRun := hasAutoRun st;
         calls := calls st ++ [{| call_connection := connection ctx; call_sql := sql |}];
         pending := pending st ++ [List.length (calls st)];
         autoRuns := autoRuns st;
         settled := settled st |}
  end.

(** [handleRunQuery] after its [await], for call number [n]: the result
    or the error is stored, then [finally] clears [isExecuting]. *)
Definition resumeRunQuery (n : nat) (o : Outcome) (st : ChatState) : ChatState :=
  if existsb (Nat.eqb n) (pending st) then
    {| isExecuting := false;
       executionResult := Some (resultOf o);
       hasAutoRun := hasAutoRun st;
       calls := calls st;
       pending := filter (fun k => negb (Nat.eqb n k)) (pending st);
       autoRuns := autoRuns st;
       settled := settled st ++ [(n, resultOf o)] |}
  else st.

(** The text between the end of the prefix and the first line feed that
    is followed by three backticks: the lazy group of the expression
    below. *)
Fixpoint untilFenceClose (s : string) : option string :=
  if startsWith s (String LF "```") then Some ""
  else match s with
       | EmptyString => None
       | String c r => option_map (String c) (untilFenceClose r)
       end.

(** [content.match(/```sql\n([\s\S]*?)\n```/)]: group 1 of the leftmost
    match. *)
Fixpoint matchSqlFence (s : string) : option string :=
  let here :=
    match stripPrefix ("```sql" ++ newline) s with
    | Some rest => untilFenceClose rest
    | None => None
    end in
  match here with
  | Some group => Some group
  | None =>
      match s with
      | EmptyString => None
      | String _ r => matchSqlFence r
      end
  end.

(** [hasAutoRun.current = true]; the call about to be issued is noted as
    the effect's. *)
Definition markAutoRun (st : ChatState) : ChatState :=
  {| isExecuting := isExecuting st;
     executionResult := executionResult st;
     hasAutoRun := true;
     calls := calls st;
     pending := pending st;
     autoRuns := autoRuns st ++ [List.length (calls st)];
     settled := settled st |}.

(** The auto-run effect. *)
Definition autoRunEffect (message : Message) (dbContext : option DbContext)
           (st : ChatState) : ChatState :=
  match dbContext, hasAutoRun st, role message with
  | Some _, false, assistant =>
      match matchSqlFence (content message) with
      | Some group =>
          if negb (String.eqb group "") then
            let sql := trim group in
            if readOnlyPrefix sql
            then handleRunQuery dbContext sql (markAutoRun st)
            else st
          else st
      | None => st
      end
  | _, _, _ => st
  end.

(** What can happen to a mounted message: the effect runs after a render
    that had [dbContext]; a Run Query button calls [onRun(code)] from such
    a render; the awaited call number [n] ends. *)
Inductive Event :=
| EffectRuns (dbContext : option DbContext)
| RunClicked (dbContext : option DbContext) (code : string)
| CallEnds (n : nat) (o : Outcome).

Definition step (message : Message) (st : ChatState) (e : Event) : ChatState :=
  match e with
  | EffectRuns dbContext => autoRunEffect message dbContext st
  | RunClicked dbContext code => handleRunQuery dbContext code st
  | CallEnds n o => resumeRunQuery n o st
  end.

Definition run (message : Message) (events : list Event) : ChatState :=
  fold_left (step message) events mounted.

(** The SQL texts the effect passed to the backend. *)
Definition autoRunTexts (st : ChatState) : list string :=
  flat_map (fun n => match nth_error (calls st) n with
                     | Some c => [call_sql c]
                     | None => []
                     end) (autoRuns st).

(** *** Markdown documents with fenced blocks *)

Inductive Segment :=
| Prose (text : string)
| Fence (tag : option string) (body : string).

Definition renderSegment (seg : Segment) : string :=
  match seg with
  | Prose t => t ++ newline
  | Fence tag body =>
      "```" ++ match tag with Some t => t | None => "" end ++ newline
      ++ body ++ newline ++ "```" ++ newline
  end.

Definition markdownOf (doc : list Segment) : string :=
  String.concat "" (map renderSegment doc).

(** The body of the first fence of the document that the code renderer
    classifies as SQL. *)
Fixpoint firstSqlBlock (doc : list Segment) : option string :=
  match doc with
  | [] => None
  | Fence tag body :: rest =>
      match classify (classNameOfTag tag) with
      | KSql => Some body
      | _ => firstSqlBlock rest
      end
  | Prose _ :: rest => firstSqlBlock rest
  end.

(** The body of the first fence whose tag is exactly [sql]. *)
Fixpoint firstSqlTaggedBlock (doc : list Segment) : option string :=
  match doc with
  | [] => None
  | Fence (Some t) body :: rest =>
      if String.eqb t "sql" then Some body else firstSqlTaggedBlock rest
  | _ :: rest => firstSqlTaggedBlock rest
  end.

(** The body of the first fence whose tag reads [sql], case ignored. *)
Fixpoint firstFenceTaggedSql (doc : list Segment) : option string :=
  match doc with
  | [] => None
  | Fence (Some t) body :: rest =>
      if String.eqb (toLowerCase t) "sql" then Some body else firstFenceTaggedSql rest
  | _ :: rest => firstFenceTaggedSql rest
  end.

(** Wherever a tag reads [sql] it is written in lower case. *)
Definition lower_case_sql_tags (doc : list Segment) : bool :=
  forallb (fun seg => match seg with
                      | Fence (Some t) _ =>
                          implb (String.eqb (toLowerCase t) "sql") (String.eqb t "sql")
                      | _ => true
                      end) doc.

Definition no_backtick (s : string) : bool :=
  all_chars (fun c => negb (Ascii.eqb c "`")) s.

Definition no_line_feed (s : string) : bool :=
  all_chars (fun c => negb (Ascii.eqb c LF)) s.

(** Prose and fence bodies without backticks, tags without backticks and
    line feeds. *)
Definition plain_segment (seg : Segment) : bool :=
  match seg with
  | Prose t => no_backtick t
  | Fence tag body =>
      no_backtick body
      && match tag with
         | Some t => no_backtick t && no_line_feed t
         | None => true
         end
  end.

(** *** Invariants of a mounted message *)

(** The SQL texts of the calls numbered [ns] in the list [cs]. *)
Definition textsOf (cs : list BackendCall) (ns : list nat) : list string :=
  flat_map (fun n => match nth_error cs n with
                     | Some c => [call_sql c]
                     | None => []
                     end) ns.

(** Either the effect has not fired and the one-shot flag is clear, or the
    flag is set and the effect issued exactly one call, with the trimmed
    group of the first match in the content, which passed the gate. *)
Definition auto_inv (message : Message) (st : ChatState) : Prop :=
  Forall (fun n => (n < List.length (calls st))%nat) (autoRuns st)
  /\ ((hasAutoRun st = false /\ autoRuns st = [])
      \/ (hasAutoRun st = true
          /\ role message = assistant
          /\ exists group n,
               autoRuns st = [n]
               /\ matchSqlFence (content message) = Some group
               /\ eligible group = true
               /\ textsOf (calls st) (autoRuns st) = [trim group])).

(** A displayed result is the one stored last; while nothing is displayed
    a call is awaited, or none was ever issued. *)
Definition display_inv (st : ChatState) : Prop :=
  match executionResult st with
  | Some r => exists log n, settled st = (log ++ [(n, r)])%list
  | None => pending st <> [] \/ calls st = []
  end.

(** A call ends once: the numbers of the ended calls are distinct, none of
    them is still awaited, and all numbers are those of issued calls. *)
Definition ids_inv (st : ChatState) : Prop :=
  NoDup (map fst (settled st))
  /\ (forall k, In k (pending st) -> ~ In k (map fst (settled st)))
  /\ Forall (fun k => (k < List.length (calls st))%nat) (pending st)
  /\ Forall (fun k => (k < List.length (calls st))%nat) (map fst (settled st)).

(** The result stored for call [n], if it has ended. *)
Definition resultOfCall (st : ChatState) (n : nat) : option ExecutionResult :=
  option_map snd (find (fun e => Nat.eqb (fst e) n) (settled st)).

(** The number of the most recently issued call. *)
Definition latestCall (st : ChatState) : nat := List.length (calls st) - 1.

(** *** Sample inputs *)

Definition sample_connection : DbConnection :=
  {| host := "localhost"; port := 5432%Z; username := "analyst"; password := "secret";
     database := "sales"; type := "PostgreSQL"; connection_string := None |}.

Definition sample_context : DbContext :=
  {| connection := sample_connection; schema := "";
     selectedModel := "Gemini (Google)"; apiKey := None |}.

(** An assistant message with two fences tagged [sql]. *)
Definition two_selects : list Segment :=
  [Prose "Two queries:"; Fence (Some "sql") "SELECT 1"; Prose "and";
   Fence (Some "sql") "SELECT 2"].

(** An assistant message with a MongoDB query before the SQL query. *)
Definition mongo_then_sql : list Segment :=
  [Fence (Some "mongodb") "db.orders.find({})"; Fence (Some "sql") "SELECT 2"].

(** An assistant message whose first SQL fence is tagged in upper case. *)
Definition upper_then_lower : list Segment :=
  [Fence (Some "SQL") "SELECT 1"; Fence (Some "sql") "SELECT 2"].

Definition assistant_message (doc : list Segment) : Message :=
  {| id := "m1"; role := assistant; content := markdownOf doc; timestamp := 0 |}.

(** A successful response with one column and no rows. *)
Definition one_column (name : string) : Outcome :=
  Fulfilled {| success := true; columns := Some [name]; rows := Some []; error := None |}.

(** A dataset whose [month] column starts with a date-like string and goes
    on with numbers. *)
Definition monthly : list JsObject :=
  [ [("month", JStr "2023-01"); ("total", JNum (Finite 10))];
    [("month", JNum (Finite 2)); ("total", JNum (Finite 20))];
    [("month", JNum (Finite 3)); ("total", JNum (Finite 30))] ].

Definition no_comma (s : string) : bool :=
  all_chars (fun c => negb (Ascii.eqb c ",")) s.

(** One line of the export for a data row. *)
Definition csvLine (FiniteToString : Q -> string) (headers : list string) (row : JsObject)
  : string :=
  join "," (map (fun h => dquote ++ ToString FiniteToString (lookupProp h row) ++ dquote)
                headers).

(** Datasets the export can be split back from: at least one header, no
    comma and no line feed in a header, no line feed in the text of a
    value. *)
Definition splittable (FiniteToString : Q -> string)
           (headers : list string) (data : list JsObject) : Prop :=
  headers <> []
  /\ Forall (fun h => no_comma h = true /\ no_line_feed h = true) headers
  /\ Forall (fun row =>
               Forall (fun h => no_line_feed (ToString FiniteToString (lookupProp h row)) = true)
                      headers) data.

(** The shape the expression [numeric_re] describes: an optional leading
    minus, digits and commas, an optional decimal point with digits. *)
Definition numeric_shape (v : string) : Prop :=
  exists sign body frac,
    v = sign ++ body ++ frac
    /\ (sign = "" \/ sign = "-")
    /\ body <> ""
    /\ all_chars (fun c => is_digit c || Ascii.eqb c ",") body = true
    /\ (frac = "" \/ exists ds, frac = "." ++ ds /\ ds <> "" /\ all_chars is_digit ds = true).

(** What a residual expression matches. *)
Definition matched (o : option Regex.regex) (s : string) : Prop :=
  match o with
  | Some r => Regex.Matches r s
  | None => False
  end.

(** The table of the specification: header row [name | amount], one data
    row [Widget | 1,234.50], with the line-feed text nodes the markdown
    renderer leaves between the groups. *)
Definition widget_table : JsVal :=
  element "table"
    [ element "thead"
        [ text newline;
          element "tr" [ element "th" [text "name"]; element "th" [text "amount"] ] ];
      text newline;
      element "tbody"
        [ text newline;
          element "tr" [ element "td" [text "Widget"]; element "td" [text "1,234.50"] ] ] ].

(** After an optional leading minus, only digits, commas and points. *)
Definition numeric_chars (v : string) : bool :=
  all_chars (fun c => is_digit c || Ascii.eqb c "," || Ascii.eqb c ".")
            (match v with
             | String "-" r => r
             | _ => v
             end).

(** [c] is an object among the [children] array of the object [parent],
    and its [tagName] is [tag]. *)
Definition child_with_tag (tag : string) (parent c : JsVal) : Prop :=
  exists props items cprops,
    parent = JObj props
    /\ lookupProp "children" props = JArr items
    /\ In c items
    /\ c = JObj cprops
    /\ lookupProp "tagName" cprops = JStr tag.

(** The node has a header group with a row that holds a header cell. *)
Definition has_header_cell (node : JsVal) : Prop :=
  exists thead tr th,
    child_with_tag "thead" node thead
    /\ child_with_tag "tr" thead tr
    /\ child_with_tag "th" tr th.

(** The node has a body group that holds a row. *)
Definition has_body_row (node : JsVal) : Prop :=
  exists tbody tr,
    child_with_tag "tbody" node tbody /\ child_with_tag "tr" tbody tr.

(** A table without header group: only a body. *)
Definition headless_table : JsVal :=
  element "table"
    [ element "tbody"
        [ element "tr" [ element "td" [text "Widget"]; element "td" [text "1,234.50"] ] ] ].

(** * Further code of the pipeline *)

(** ** Scorer and gate *)

(** The tiers in the order of the badge: Simple, Intermediate, Complex. *)
Definition tier_rank (t : Tier) : nat :=
  match t with
  | Simple => 0
  | Intermediate => 1
  | Complex => 2
  end.

(** The contribution of one test to the score. *)
Definition weight (b : bool) (w : nat) : nat := if b then w else 0%nat.

(** The closing fence the lazy group stops at, and the opening fence. *)
Definition fence_close : string := String LF "```".
Definition fence_open : string := "```sql" ++ newline.

(** ** Coordinator: what the effect will run *)

(** The text the effect passes to the backend for a message, if any: the
    trimmed group of the first match, on an assistant message, when it
    passes the gate. *)
Definition autoRunTarget (message : Message) : option string :=
  match role message with
  | assistant =>
      match matchSqlFence (content message) with
      | Some group => if eligible group then Some (trim group) else None
      | None => None
      end
  | user => None
  end.

(** Some effect of the list ran with a connection context. *)
Definition effectWithContext (events : list Event) : bool :=
  existsb (fun e => match e with
                    | EffectRuns (Some _) => true
                    | _ => false
                    end) events.

(** *** The result area under an SQL block *)

(** What the [code] renderer puts under the SqlRenderer: the spinner when
    [isExecuting], the error panel when [executionResult.error] is truthy,
    and otherwise, with a result, the DataVisualizer on its headers and
    data. *)
Record ResultArea := {
  showsSpinner : bool;
  showsError : option string;
  showsResults : option (list string * list JsObject)
}.

Definition errorOf (r : ExecutionResult) : option string :=
  match result_error r with
  | Some e => if String.eqb e "" then None else Some e
  | None => None
  end.

Definition resultArea (st : ChatState) : ResultArea :=
  {| showsSpinner := isExecuting st;
     showsError := match executionResult st with
                   | Some r => errorOf r
                   | None => None
                   end;
     showsResults := match executionResult st with
                     | Some r => match errorOf r with
                                 | Some _ => None
                                 | None => Some (result_headers r, result_data r)
                                 end
                     | None => None
                     end |}.

(** The spinner shows exactly while nothing is displayed after a call was
    issued; awaited calls are distinct, and every call is either awaited
    or has ended. *)
Definition area_inv (st : ChatState) : Prop :=
  (isExecuting st = true <-> executionResult st = None /\ calls st <> [])
  /\ NoDup (pending st)
  /\ (List.length (pending st) + List.length (settled st) = List.length (calls st))%nat.

(** *** [executeQuery] (services/apiService) *)

(** How the request ends inside [executeQuery]: [fetch] or [response.json()]
    throws, or a body is parsed. *)
Inductive FetchOutcome :=
| FetchThrows (err : string)
| JsonBody (body : QueryResponse).

(** [executeQuery]: the parsed body, or, when anything throws, a failure
    that carries the text of the error. *)
Definition executeQuery (o : FetchOutcome) : QueryResponse :=
  match o with
  | JsonBody body => body
  | FetchThrows err =>
      {| success := false; columns := None; rows := None;
         error := Some ("Query execution failed: " ++ err) |}
  end.

(** ** Well-formed syntax trees *)

(** The trees the markdown renderer builds: text leaves and elements. *)
#[warnings="-register-all"]
Inductive Hast :=
| HText (value : string)
| HElement (tagName : string) (children : list Hast).

Fixpoint toNode (t : Hast) : JsVal :=
  match t with
  | HText v => text v
  | HElement tag children => element tag (map toNode children)
  end.

(** The text below a node, depth first and left to right. *)
Fixpoint textContent (t : Hast) : string :=
  match t with
  | HText v => v
  | HElement _ children => join "" (map textContent children)
  end.

Definition isTag (tag : string) (t : Hast) : bool :=
  match t with
  | HElement tg _ => String.eqb tg tag
  | HText _ => false
  end.

Definition childrenOf (t : Hast) : list Hast :=
  match t with
  | HElement _ children => children
  | HText _ => []
  end.

(** The trimmed text of a cell. *)
Definition cellText (cell : Hast) : string := trim (textContent cell).

(** The record of a data row: the cells under the headers, position by
    position, as far as both go. *)
Definition recordOf (headers : list string) (cells : list string) : JsObject :=
  fold_left (fun o hc => setProp (fst hc) (coerceCell (snd hc)) o)
            (combine headers cells) [].

(** The extraction, read on the tree: the first header group and its
    first row give the headers; the rows of the first body group give the
    records. *)
Definition datasetOf (t : Hast) : option Dataset :=
  match find (isTag "thead") (childrenOf t) with
  | None => None
  | Some thead =>
      match find (isTag "tr") (childrenOf thead) with
      | None => None
      | Some headerRow =>
          let headers := map cellText (filter (isTag "th") (childrenOf headerRow)) in
          match headers with
          | [] => None
          | _ =>
              let dataRows :=
                match find (isTag "tbody") (childrenOf t) with
                | Some tbody => filter (isTag "tr") (childrenOf tbody)
                | None => []
                end in
              let data :=
                map (fun row =>
                       recordOf headers (map cellText (filter (isTag "td") (childrenOf row))))
                    dataRows in
              match data with
              | [] => None
              | _ => Some {| headers := headers; data := data |}
              end
          end
      end
  end.

(** Is [name] a key of the object? *)
Definition hasKey (name : string) (o : JsObject) : bool :=
  existsb (fun kv => String.eqb (fst kv) name) o.

(** ** Data visualizer: axes, palette and views *)

Definition COLORS : list string :=
  ["#4F46E5"; "#10B981"; "#F59E0B"; "#EF4444"; "#8B5CF6"; "#EC4899"; "#06B6D4"].

(** [COLORS[index % COLORS.length]], the fill of the bar series and of the
    pie slice number [index]. *)
Definition colorAt (index : nat) : option string :=
  nth_error COLORS (index mod List.length COLORS).


Section Axes.

Variable FiniteToString : Q -> string.



End Axes.

Inductive ViewMode := table | bar | pie.

Definition ViewMode_eqb (a b : ViewMode) : bool :=
  match a, b with
  | table, table | bar, bar | pie, pie => true
  | _, _ => false
  end.

(** The buttons of the toolbar: the table view always, the two charts when
    [numericKeys.length > 0]. *)
Definition offered (numeric : list string) : list ViewMode :=
  table :: match numeric with
           | [] => []
           | _ => [bar; pie]
           end.

(** A press on the button of a view: [setViewMode], where the button
    exists. *)
Definition press (numeric : list string) (viewMode target : ViewMode) : ViewMode :=
  if existsb (ViewMode_eqb target) (offered numeric) then target else viewMode.

(** ** Schema panel (SchemaPanel) *)

(** What [re.test] looks for when the expression has no anchor: a match
    somewhere in the text. *)
Definition somewhere (r : Regex.regex) : Regex.regex :=
  Regex.Seq (Regex.Star (Regex.Chr (fun _ => true)))
            (Regex.Seq r (Regex.Star (Regex.Chr (fun _ => true)))).

(** A literal under the [i] flag. *)
Fixpoint ci_lit (k : string) : Regex.regex :=
  match k with
  | EmptyString => Regex.Eps
  | String c k' => Regex.Seq (Regex.Chr (same_letter c)) (ci_lit k')
  end.

(** [/CREATE\s+TABLE/i] and [/SELECT/i] *)
Definition create_table_re : Regex.regex :=
  Regex.Seq (ci_lit "CREATE") (Regex.Seq (Regex.Plus (Regex.Chr is_space)) (ci_lit "TABLE")).

Definition select_re : Regex.regex := ci_lit "SELECT".

Definition schema_warning : string :=
  "Input doesn't look like valid SQL (missing 'CREATE TABLE').".

(** [validateSchema]: the value it gives to [schemaError]. *)
Definition validateSchema (text : string) : option string :=
  if String.eqb (trim text) "" then None
  else
    let hasCreateTable := Regex.test (somewhere create_table_re) text in
    let hasSelect := Regex.test (somewhere select_re) text in
    if negb hasCreateTable && negb hasSelect then Some schema_warning else None.


(** *** Connection test ([handleConnect], with [testDatabaseConnection] of
    services/apiService) *)

Module Connection.

(** What the backend answers to a connection test. *)
Record ConnectResponse := {
  success : bool;
  message : option string;
  tables : option (list string)
}.



Inductive Status := idle | connected | failed.

(** The state [connectionStatus]; [connected] and [failed] stand for the
    status values ["success"] and ["error"]. *)
Record ConnectionStatus := {
  status : Status;
  statusMessage : string
}.

(** How the awaited call ends for [handleConnect]: with a result, or with
    an exception whose [message] is given. *)
Inductive Outcome :=
| Returned (result : ConnectResponse)
| Threw (errorMessage : option string).

(** [m || fallback] *)
Definition orDefault (m : option string) (fallback : string) : string :=
  match m with
  | Some s => if String.eqb s "" then fallback else s
  | None => fallback
  end.

(** The status [handleConnect] sets when the call has ended. *)
Definition statusOf (o : Outcome) : ConnectionStatus :=
  match o with
  | Returned result =>
      if success result
      then {| status := connected;
              statusMessage := orDefault (message result) "Successfully connected to database." |}
      else {| status := failed;
              statusMessage := orDefault (message result) "Failed to connect to database." |}
  | Threw errorMessage =>
      {| status := failed;
         statusMessage := orDefault errorMessage "An unexpected error occurred." |}
  end.

(** The part of the panel state the connection test writes; [attempts]
    counts the tests started. *)
Record PanelState := {
  isConnecting : bool;
  connectionStatus : ConnectionStatus;
  attempts : nat
}.

Definition initial : PanelState :=
  {| isConnecting := false;
     connectionStatus := {| status := idle; statusMessage := "" |};
     attempts := 0 |}.

(** The button is pressed (it is disabled while connecting), or the
    awaited test ends. *)
Inductive Event :=
| ConnectPressed
| TestEnds (o : Outcome).

Definition step (st : PanelState) (e : Event) : PanelState :=
  match e with
  | ConnectPressed =>
      if isConnecting st then st
      else {| isConnecting := true;
              connectionStatus := {| status := idle; statusMessage := "" |};
              attempts := S (attempts st) |}
  | TestEnds o =>
      if isConnecting st
      then {| isConnecting := false; connectionStatus := statusOf o;
              attempts := attempts st |}
      else st
  end.

Definition run (events : list Event) : PanelState := fold_left step events initial.


End Connection.

(** ** Conversation (App, with [generateSqlAnalysis] of services/apiService) *)

Module App.

Definition API_BASE_URL : string := "http://localhost:8000".

(** How the request ends inside [generateSqlAnalysis]: something throws,
    the response is not ok and its body has a [detail] or not, or the body
    has a [content] or not. *)
Inductive ChatFetch :=
| ChatThrows (err : string)
| ChatNotOk (detail : option string)
| ChatOk (content : option string).

(** [m || fallback] *)
Definition orDefault (m : option string) (fallback : string) : string :=
  match m with
  | Some s => if String.eqb s "" then fallback else s
  | None => fallback
  end.

(** [generateSqlAnalysis]: the text of the reply.  A response that is not
    ok throws [new Error(detail || "API request failed")], which the
    [catch] prints as [Error: ...] like any other error. *)
Definition generateSqlAnalysis (o : ChatFetch) : string :=
  let caught (error : string) :=
    "Error connecting to backend API. Please ensure the server is running at "
    ++ API_BASE_URL ++ ". Error: " ++ error in
  match o with
  | ChatThrows err => caught err
  | ChatNotOk detail => caught ("Error: " ++ orDefault detail "API request failed")
  | ChatOk content =>
      orDefault content "I could not generate a response. Please check your inputs."
  end.

Definition welcome_text : string :=
  "Hello! I'm your **SQL Analyst AI**. " ++ newline ++ newline
  ++ "I can help you analyze your data by converting your questions into optimized SQL queries, explaining the logic, and suggesting visualizations."
  ++ newline ++ newline
  ++ "To get started:" ++ newline
  ++ "1.  **Configure your Database** in the sidebar (Host, User, DB Name)." ++ newline
  ++ "2.  **Provide Schema Context** (Paste your CREATE TABLE statements)." ++ newline
  ++ "3.  **Ask a question** about your data." ++ newline ++ newline
  ++ "*Example: " ++ dquote ++ "Show total sales per month for the last year" ++ dquote ++ "*".

Definition welcome : Message :=
  {| id := "welcome"; role := assistant; content := welcome_text; timestamp := 0 |}.

Record AppState := {
  messages : list Message;
  input : string;
  isLoading : bool
}.

Definition initial : AppState :=
  {| messages := [welcome]; input := ""; isLoading := false |}.

(** The input field changes (it is disabled while loading), the form is
    submitted at clock reading [now], or the awaited reply arrives at
    clock reading [now]. *)
Inductive Event :=
| InputChanged (value : string)
| Submitted (now : Z)
| Answered (o : ChatFetch) (now : Z).

(** [handleSubmit] up to its [await]. *)
Definition handleSubmit (now : Z) (st : AppState) : AppState :=
  if String.eqb (trim (input st)) "" || isLoading st then st
  else
    let userMessage :=
      {| id := Printer.print_nat now; role := user; content := input st;
         timestamp := Z.to_nat now |} in
    {| messages := messages st ++ [userMessage]; input := ""; isLoading := true |}.

(** [handleSubmit] after its [await]. *)
Definition resumeSubmit (o : ChatFetch) (now : Z) (st : AppState) : AppState :=
  let botMessage :=
    {| id := Printer.print_nat (now + 1); role := assistant;
       content := generateSqlAnalysis o; timestamp := Z.to_nat now |} in
  {| messages := messages st ++ [botMessage]; input := input st; isLoading := false |}.

Definition step (st : AppState) (e : Event) : AppState :=
  match e with
  | InputChanged value =>
      if isLoading st then st
      else {| messages := messages st; input := value; isLoading := isLoading st |}
  | Submitted now => handleSubmit now st
  | Answered o now => if isLoading st then resumeSubmit o now st else st
  end.

Definition run (events : list Event) : AppState := fold_left step events initial.

(** The transcript alternates between the assistant and the user, starting
    with the assistant; no message is empty; a reply is awaited exactly
    when the last message is the user's. *)
Definition transcript_inv (st : AppState) : Prop :=
  (forall i m, nth_error (messages st) i = Some m ->
     role m = (if Nat.even i then assistant else user) /\ content m <> "")
  /\ isLoading st = Nat.even (List.length (messages st)).

End App.

(** ** Diagram renderer (MermaidRenderer) *)

Module Mermaid.

(** How [mermaid.render] ends. *)
Inductive RenderOutcome :=
| Rendered (svg : string)
| RenderThrows.

(** The state of one mounted renderer.  Effect runs are numbered; [live]
    is the run whose [isMounted] flag is still true, [codes] the code of
    each run, [awaiting] the runs whose render has not ended.  [stored]
    notes the run and outcome written to the state last. *)
Record State := {
  svg : string;
  error : option string;
  live : option nat;
  codes : list string;
  awaiting : list nat;
  stored : option (nat * RenderOutcome)
}.

Definition mounted : State :=
  {| svg := ""; error := None; live := None; codes := []; awaiting := []; stored := None |}.

(** The effect runs for a new [code] (the cleanup of the previous run has
    cleared its flag); the component is torn down; the render of run [n]
    ends. *)
Inductive Event :=
| EffectRuns (code : string)
| Unmounts
| RenderEnds (n : nat) (o : RenderOutcome).

Definition step (st : State) (e : Event) : State :=
  match e with
  | EffectRuns code =>
      let n := List.length (codes st) in
      {| svg := svg st; error := error st;
         live := Some n;
         codes := codes st ++ [code];
         awaiting := if String.eqb code "" then awaiting st else awaiting st ++ [n];
         stored := stored st |}
  | Unmounts =>
      {| svg := svg st; error := error st; live := None; codes := codes st;
         awaiting := awaiting st; stored := stored st |}
  | RenderEnds n o =>
      if existsb (Nat.eqb n) (awaiting st) then
        let rest := filter (fun k => negb (Nat.eqb n k)) (awaiting st) in
        match live st with
        | Some k =>
            if Nat.eqb k n then
              match o with
              | Rendered s =>
                  {| svg := s; error := None; live := live st; codes := codes st;
                     awaiting := rest; stored := Some (n, o) |}
              | RenderThrows =>
                  {| svg := svg st;
                     error := Some "Failed to render diagram. Syntax error?";
                     live := live st; codes := codes st;
                     awaiting := rest; stored := Some (n, o) |}
              end
            else {| svg := svg st; error := error st; live := live st; codes := codes st;
                    awaiting := rest; stored := stored st |}
        | None => {| svg := svg st; error := error st; live := live st; codes := codes st;
                     awaiting := rest; stored := stored st |}
        end
      else st
  end.

Definition run (events : list Event) : State := fold_left step events mounted.


End Mermaid.

(** ** Markup escaping (SqlRenderer, highlightedHtml) *)

(** [s.replace(/c/g, by_text)] for a pattern of one character and a
    replacement text with no dollar sign. *)
Fixpoint replaceChar (c : ascii) (by_text : string) (s : string) : string :=
  match s with
  | EmptyString => EmptyString
  | String a rest =>
      (if Ascii.eqb a c then by_text else String a EmptyString)
      ++ replaceChar c by_text rest
  end.

(** The first three replacements of [highlightedHtml]: the text the
    highlighting passes start from. *)
Definition escapedCode (code : string) : string :=
  replaceChar ">" "&gt;" (replaceChar "<" "&lt;" (replaceChar "&" "&amp;" code)).

(** Neither angle bracket. *)
Definition no_angle (a : ascii) : bool :=
  negb (Ascii.eqb a "<") && negb (Ascii.eqb a ">").

(** None of the three characters that are replaced. *)
Definition no_markup (a : ascii) : bool :=
  negb (Ascii.eqb a "&") && no_angle a.

(** Reads the three character references back, from the end of the text. *)
Fixpoint readEntities (s : string) : string :=
  match s with
  | EmptyString => EmptyString
  | String a rest =>
      let d := readEntities rest in
      if Ascii.eqb a "&" then
        match stripPrefix "amp;" d with
        | Some t => String "&" t
        | None =>
            match stripPrefix "lt;" d with
            | Some t => String "<" t
            | None =>
                match stripPrefix "gt;" d with
                | Some t => String ">" t
                | None => String a d
                end
            end
        end
      else String a d
  end.

(** * Properties *)

(** ** Strings *)

Section StringFacts.

Lemma upper_char_idem c : upper_char (upper_char c) = upper_char c.
Proof. destruct c as [[] [] [] [] [] [] [] []]; reflexivity. Qed.

Lemma upper_lower_char c : upper_char (lower_char c) = upper_char c.
Proof. destruct c as [[] [] [] [] [] [] [] []]; reflexivity. Qed.

Lemma lower_upper_char c : lower_char (upper_char c) = lower_char c.
Proof. destruct c as [[] [] [] [] [] [] [] []]; reflexivity. Qed.

Lemma lower_of_lower c : is_lower c = true -> lower_char c = c.
Proof. destruct c as [[] [] [] [] [] [] [] []]; simpl; intros H; try reflexivity; discriminate H. Qed.


Lemma upper_moves_only_lower c : is_lower c = false -> upper_char c = c.
Proof. unfold upper_char. now intros ->. Qed.

Lemma upper_char_is_upper c : is_lower c = true -> is_upper (upper_char c) = true.
Proof. destruct c as [[] [] [] [] [] [] [] []]; simpl; intros H; try reflexivity; discriminate H. Qed.


(** Ignoring case is comparing upper-cased characters. *)
Lemma same_letter_upper a b :
  same_letter a b = true <-> upper_char a = upper_char b.
Proof.
  unfold same_letter. split.
  - intros H. apply orb_true_iff in H as [H | H].
    + apply orb_true_iff in H as [H | H].
      * apply Ascii.eqb_eq in H. now subst.
      * apply andb_true_iff in H as [_ H]. apply Ascii.eqb_eq in H.
        subst b. now rewrite upper_char_idem.
    + apply andb_true_iff in H as [_ H]. apply Ascii.eqb_eq in H.
      subst b. now rewrite upper_lower_char.
  - intros E.
    destruct (is_lower a) eqn:La; destruct (is_lower b) eqn:Lb.
    + assert (a = b) as ->.
      { rewrite <- (lower_of_lower a La), <- (lower_of_lower b Lb).
        rewrite <- lower_upper_char, E. apply lower_upper_char. }
      now rewrite Ascii.eqb_refl.
    + rewrite (upper_moves_only_lower b Lb) in E. subst b.
      rewrite Ascii.eqb_refl. simpl. now rewrite orb_true_r.
    + rewrite (upper_moves_only_lower a La) in E. subst a.
      rewrite (upper_char_is_upper b Lb), lower_upper_char,
        (lower_of_lower b Lb), Ascii.eqb_refl.
      simpl. now rewrite !orb_true_r.
    + rewrite (upper_moves_only_lower a La), (upper_moves_only_lower b Lb) in E.
      subst b. now rewrite Ascii.eqb_refl.
Qed.

Lemma ci_equal_upper s : forall t,
  ci_equal s t = true <-> toUpperCase s = toUpperCase t.
Proof.
  induction s as [| a s IH]; intros [| b t]; simpl; try (split; [discriminate | discriminate]).
  - split; reflexivity.
  - rewrite andb_true_iff, same_letter_upper, IH. split.
    + intros [E1 E2]. unfold toUpperCase in *. simpl. now rewrite E1, E2.
    + intros H. injection H. auto.
Qed.

Lemma map_chars_app f s t : map_chars f (s ++ t) = map_chars f s ++ map_chars f t.
Proof. induction s as [| c s IH]; simpl; [reflexivity | now rewrite IH]. Qed.


(** A split of the image of a string comes from a split of the string. *)
Lemma map_chars_split f s : forall a b,
  map_chars f s = a ++ b ->
  exists s1 s2, s = s1 ++ s2 /\ map_chars f s1 = a /\ map_chars f s2 = b.
Proof.
  induction s as [| c s IH]; intros a b H.
  - destruct a; [| discriminate]. simpl in H. subst b.
    exists "", "". repeat split.
  - destruct a as [| x a].
    + exists "", (String c s). simpl in *. repeat split. now symmetry.
    + simpl in H. injection H as Hc Hr.
      destruct (IH _ _ Hr) as (s1 & s2 & -> & <- & <-).
      exists (String c s1), s2. simpl. now rewrite Hc.
Qed.

Lemma startsWith_spec s : forall p,
  startsWith s p = true <-> exists r, s = p ++ r.
Proof.
  induction s as [| b s IH]; intros [| a p]; simpl.
  - split; [now exists "" | reflexivity].
  - split; [discriminate | intros [r H]; discriminate].
  - split; [now exists (String b s) | reflexivity].
  - rewrite andb_true_iff, Ascii.eqb_eq, IH. split.
    + intros [-> [r ->]]. now exists r.
    + intros [r H]. injection H as -> ->. split; [reflexivity | now exists r].
Qed.

Lemma includes_spec s : forall p,
  includes s p = true <-> exists pre post, s = pre ++ p ++ post.
Proof.
  induction s as [| c s IH]; intros p; cbn [includes].
  - rewrite orb_false_r, startsWith_spec. split.
    + intros [r H]. now exists "", r.
    + intros (pre & post & H). destruct pre; [| discriminate]. now exists post.
  - rewrite orb_true_iff, startsWith_spec, IH. split.
    + intros [[r H] | (pre & post & ->)].
      * now exists "", r.
      * now exists (String c pre), post.
    + intros (pre & post & H). destruct pre as [| x pre].
      * left. now exists post.
      * right. injection H as _ ->. now exists pre, post.
Qed.

Lemma append_empty_r s : s ++ "" = s.
Proof. induction s as [| c s IH]; simpl; [reflexivity | now rewrite IH]. Qed.

Lemma append_assoc' (a b c : string) : (a ++ b) ++ c = a ++ b ++ c.
Proof. induction a as [| x a IH]; simpl; [reflexivity | now rewrite IH]. Qed.


Lemma includes_upper_ci code k :
  toUpperCase k = k ->
  includes (toUpperCase code) k = true <-> ci_contains code k.
Proof.
  intros Hk. rewrite includes_spec. unfold ci_contains. split.
  - intros (pre & post & H).
    apply map_chars_split in H as (p & r & -> & Hp & H).
    apply map_chars_split in H as (m & q & -> & Hm & _).
    exists p, m, q. split; [reflexivity |].
    apply ci_equal_upper. now rewrite Hk.
  - intros (pre & mid & post & -> & H). apply ci_equal_upper in H. rewrite Hk in H.
    exists (toUpperCase pre), (toUpperCase post).
    unfold toUpperCase in *. now rewrite !map_chars_app, H.
Qed.

End StringFacts.

Example trim_examples :
  trim "  select 1 " = "select 1"
  /\ trim (String LF "a b" ++ newline) = "a b"
  /\ trim "   " = ""
  /\ split "," "a,,b" = ["a"; ""; "b"]
  /\ join "," ["a"; ""; "b"] = "a,,b".
Proof. repeat split. Qed.

(** ** Code-block classifier *)

Section Classifier.

Lemma takeWord_all_word t : all_chars is_word t = true -> takeWord t = t.
Proof.
  unfold all_chars. induction t as [| c t IH]; simpl; [reflexivity |].
  intros H. apply andb_true_iff in H as [Hc Ht]. now rewrite Hc, IH.
Qed.

(** On the class name built from a tag of word characters the regular
    expression captures the tag itself. *)
Lemma exec_language_word_tag t :
  all_chars is_word t = true -> t <> "" ->
  exec_language ("language-" ++ t) = Some t.
Proof.
  intros Hw Hne. cbn [exec_language append stripPrefix Ascii.eqb Bool.eqb].
  rewrite (takeWord_all_word t Hw).
  destruct t; [contradiction | reflexivity].
Qed.

Lemma classify_of_capture cn t :
  exec_language cn = Some t ->
  classify (Some cn) =
    if String.eqb (toLowerCase t) "mermaid" then KDiagram
    else if String.eqb (toLowerCase t) "sql" || String.eqb (toLowerCase t) "mongodb"
         then KSql else KGeneric.
Proof. unfold classify. now intros ->. Qed.


End Classifier.

(** C3, as amended.  For every fenced block whose language tag consists of
    word characters only (letters, digits, underscore), the branch taken by
    the code renderer is the classification of the specification: sql iff
    the lower-cased tag is "sql" or "mongodb", diagram iff it is "mermaid",
    generic for any other non-empty tag, and plain when there is no tag. *)
Theorem classify_word_tag (tag : option string) :
  word_tag tag -> classify (classNameOfTag tag) = spec_classify tag.
Proof.
  destruct tag as [t |]; [| reflexivity].
  intros Hw. simpl in Hw. unfold classNameOfTag, option_map.
  destruct (string_dec t "") as [-> | Hne]; [reflexivity |].
  rewrite (classify_of_capture _ t (exec_language_word_tag t Hw Hne)).
  unfold spec_classify.
  destruct (String.eqb (toLowerCase t) "mermaid") eqn:Em.
  - apply String.eqb_eq in Em. rewrite Em. reflexivity.
  - destruct (String.eqb (toLowerCase t) "sql" || String.eqb (toLowerCase t) "mongodb");
      [reflexivity |].
    apply String.eqb_neq in Hne. now rewrite Hne.
Qed.

Lemma classify_word_tag_witness :
  word_tag (Some "SQL") /\ classify (classNameOfTag (Some "SQL")) = KSql.
Proof.
  split; [reflexivity |].
  exact (classify_word_tag (Some "SQL") eq_refl).
Defined.

(** C3, as stated, fails on a tag with a hyphen: the fence tagged
    [sql-server] is rendered as SQL, because the capture stops at the first
    character that is not a word character; and a tag that starts with such
    a character is rendered as plain inline code although a tag exists. *)
Lemma classify_hyphenated_tag :
  classify (classNameOfTag (Some "sql-server")) = KSql
  /\ spec_classify (Some "sql-server") = KGeneric
  /\ classify (classNameOfTag (Some "+x")) = KPlain
  /\ spec_classify (Some "+x") = KGeneric
  /\ ~ (forall tag, classify (classNameOfTag tag) = spec_classify tag).
Proof.
  repeat split; try reflexivity.
  intros H. specialize (H (Some "sql-server")). discriminate H.
Qed.

(** The class names [language-SQL], [language-MongoDB] and
    [language-Mermaid] are classified without regard to case. *)
Example classify_ignores_case :
  classify (Some "language-SQL") = KSql
  /\ classify (Some "language-MongoDB") = KSql
  /\ classify (Some "language-Mermaid") = KDiagram
  /\ classify (Some "language-python") = KGeneric
  /\ classify None = KPlain.
Proof. repeat split. Qed.

(** ** Automatic-execution gate *)



(** ** Complexity scorer *)

Section Scorer.





End Scorer.


(** ** Query-execution coordinator *)

Section FenceSearch.

Lemma all_chars_cons p c s : all_chars p (String c s) = p c && all_chars p s.
Proof. reflexivity. Qed.

Lemma all_chars_app p s t : all_chars p (s ++ t) = all_chars p s && all_chars p t.
Proof.
  induction s as [| c s IH]; [reflexivity |].
  simpl append. now rewrite !all_chars_cons, IH, andb_assoc.
Qed.

Lemma no_backtick_cons c s :
  no_backtick (String c s) = true -> Ascii.eqb "`" c = false /\ no_backtick s = true.
Proof.
  unfold no_backtick. rewrite all_chars_cons, andb_true_iff, negb_true_iff.
  intros [H1 H2]. split; [| exact H2]. now rewrite Ascii.eqb_sym.
Qed.

(** Where the search does not start on the prefix, it moves on by one
    character. *)
Lemma matchSqlFence_next c s :
  stripPrefix ("```sql" ++ newline) (String c s) = None ->
  matchSqlFence (String c s) = matchSqlFence s.
Proof. intros H. cbn [matchSqlFence]. now rewrite H. Qed.

Lemma matchSqlFence_skip_char c s :
  Ascii.eqb "`" c = false -> matchSqlFence (String c s) = matchSqlFence s.
Proof. intros H. apply matchSqlFence_next. cbn [append stripPrefix]. now rewrite H. Qed.

Lemma matchSqlFence_skip_plain t s :
  no_backtick t = true -> matchSqlFence (t ++ s) = matchSqlFence s.
Proof.
  induction t as [| c t IH]; intros H; [reflexivity |].
  apply no_backtick_cons in H as [Hc Ht].
  simpl append. rewrite (matchSqlFence_skip_char _ _ Hc). auto.
Qed.

(** Three backticks that are followed by something else than a backtick
    and do not open [```sql]: the search passes them. *)
Lemma matchSqlFence_skip_ticks c s :
  Ascii.eqb "`" c = false ->
  stripPrefix ("sql" ++ newline) (String c s) = None ->
  matchSqlFence ("```" ++ String c s) = matchSqlFence s.
Proof.
  intros Hc Hp.
  change ("```" ++ String c s) with (String "`" (String "`" (String "`" (String c s)))).
  rewrite matchSqlFence_next.
  2: { cbn [append stripPrefix newline]. rewrite !Ascii.eqb_refl. exact Hp. }
  rewrite matchSqlFence_next.
  2: { cbn [append stripPrefix newline]. rewrite !Ascii.eqb_refl. now rewrite Hc. }
  rewrite matchSqlFence_next.
  2: { cbn [append stripPrefix newline]. rewrite !Ascii.eqb_refl. now rewrite Hc. }
  now apply matchSqlFence_skip_char.
Qed.

Lemma startsWith_close_false c b x :
  no_backtick b = true ->
  startsWith (String c (b ++ newline ++ x)) (String LF "```") = false.
Proof.
  intros Hb. cbn [startsWith]. destruct (Ascii.eqb LF c); [| reflexivity].
  destruct b as [| c' b]; [reflexivity |].
  apply no_backtick_cons in Hb as [Hc _]. cbn [append startsWith]. now rewrite Hc.
Qed.

Lemma untilFenceClose_cons c r :
  untilFenceClose (String c r) =
    if startsWith (String c r) (String LF "```") then Some ""
    else option_map (String c) (untilFenceClose r).
Proof. reflexivity. Qed.

(** The lazy group stops at the closing fence of a body without
    backticks. *)
Lemma untilFenceClose_body body x :
  no_backtick body = true ->
  untilFenceClose (body ++ newline ++ "```" ++ x) = Some body.
Proof.
  induction body as [| c b IH]; intros H; [reflexivity |].
  pose proof (no_backtick_cons _ _ H) as [_ Hb].
  change (String c b ++ newline ++ "```" ++ x)
    with (String c (b ++ newline ++ "```" ++ x)).
  rewrite untilFenceClose_cons, (startsWith_close_false c b ("```" ++ x) Hb).
  now rewrite (IH Hb).
Qed.

(** A tag without line feed opens [```sql] only when it is [sql]. *)
Lemma stripPrefix_tag_line k : forall t x,
  no_line_feed k = true -> no_line_feed t = true ->
  stripPrefix (k ++ newline) (t ++ newline ++ x) <> None -> t = k.
Proof.
  unfold no_line_feed.
  induction k as [| a k IH]; intros t x Hk Ht H.
  - destruct t as [| c t]; [reflexivity |]. exfalso. apply H.
    rewrite all_chars_cons, andb_true_iff, negb_true_iff in Ht. destruct Ht as [Hc _].
    cbn [append stripPrefix newline]. rewrite Ascii.eqb_sym. now rewrite Hc.
  - rewrite all_chars_cons, andb_true_iff, negb_true_iff in Hk. destruct Hk as [Ha Hk].
    destruct t as [| c t].
    + exfalso. apply H. cbn [append stripPrefix newline]. now rewrite Ha.
    + rewrite all_chars_cons, andb_true_iff in Ht. destruct Ht as [_ Ht].
      cbn [append stripPrefix] in H. destruct (Ascii.eqb a c) eqn:E; [| contradiction].
      apply Ascii.eqb_eq in E. subst c. f_equal. exact (IH t x Hk Ht H).
Qed.

End FenceSearch.

Section Documents.

Lemma markdownOf_cons seg doc :
  markdownOf (seg :: doc) = renderSegment seg ++ markdownOf doc.
Proof.
  unfold markdownOf. destruct doc as [| seg' doc]; simpl.
  - now rewrite append_empty_r.
  - reflexivity.
Qed.

Lemma stripPrefix_app p r : stripPrefix p (p ++ r) = Some r.
Proof.
  induction p as [| c p IH]; [reflexivity |].
  simpl append. cbn [stripPrefix]. now rewrite Ascii.eqb_refl.
Qed.

Lemma matchSqlFence_here r group :
  untilFenceClose r = Some group ->
  matchSqlFence (("```sql" ++ newline) ++ r) = Some group.
Proof.
  intros H.
  change (("```sql" ++ newline) ++ r) with (String "`" ("``sql" ++ newline ++ r)).
  cbn [matchSqlFence].
  change (String "`" ("``sql" ++ newline ++ r)) with (("```sql" ++ newline) ++ r).
  now rewrite stripPrefix_app, H.
Qed.

Lemma matchSqlFence_pass_ticks c s :
  Ascii.eqb "`" c = false ->
  stripPrefix ("sql" ++ newline) (String c s) = None ->
  matchSqlFence ("```" ++ String c s) = matchSqlFence (String c s).
Proof.
  intros Hc Hp. rewrite (matchSqlFence_skip_ticks c s Hc Hp).
  symmetry. now apply matchSqlFence_skip_char.
Qed.

(** A fence that is not tagged [sql] is passed by the search. *)
Lemma matchSqlFence_other_fence tg body md :
  no_backtick tg = true -> no_line_feed tg = true -> no_backtick body = true ->
  tg <> "sql" ->
  matchSqlFence ("```" ++ tg ++ newline ++ body ++ newline ++ "```" ++ newline ++ md)
  = matchSqlFence md.
Proof.
  intros Htick Hlf Hbody Hne.
  assert (Hopen : stripPrefix ("sql" ++ newline)
                    (tg ++ newline ++ body ++ newline ++ "```" ++ newline ++ md) = None).
  { destruct (stripPrefix _ _) eqn:E; [| reflexivity].
    exfalso. apply Hne. eapply (stripPrefix_tag_line "sql"); [reflexivity | exact Hlf |].
    rewrite E. discriminate. }
  assert (Hplain : no_backtick (tg ++ newline ++ body ++ newline) = true).
  { unfold no_backtick in *. rewrite !all_chars_app, Htick, Hbody. reflexivity. }
  assert (Hpass : matchSqlFence ("```" ++ tg ++ newline ++ body ++ newline ++ "```" ++ newline ++ md)
                  = matchSqlFence (tg ++ newline ++ body ++ newline ++ "```" ++ newline ++ md)).
  { destruct tg as [| c tg].
    - apply matchSqlFence_pass_ticks; [reflexivity | exact Hopen].
    - apply no_backtick_cons in Htick as [Hc _].
      apply matchSqlFence_pass_ticks; [exact Hc | exact Hopen]. }
  rewrite Hpass.
  replace (tg ++ newline ++ body ++ newline ++ "```" ++ newline ++ md)
    with ((tg ++ newline ++ body ++ newline) ++ "```" ++ newline ++ md)
    by now rewrite !append_assoc'.
  rewrite (matchSqlFence_skip_plain _ _ Hplain).
  change (newline ++ md) with (String LF md).
  rewrite matchSqlFence_pass_ticks by reflexivity.
  now apply matchSqlFence_skip_char.
Qed.

Lemma render_fence_app tag body md :
  renderSegment (Fence tag body) ++ md
  = "```" ++ match tag with Some t => t | None => "" end ++ newline
    ++ body ++ newline ++ "```" ++ newline ++ md.
Proof. unfold renderSegment. now rewrite !append_assoc'. Qed.

(** In a document of plain segments the expression finds the body of the
    first fence tagged exactly [sql]. *)
Lemma matchSqlFence_markdown doc :
  forallb plain_segment doc = true ->
  matchSqlFence (markdownOf doc) = firstSqlTaggedBlock doc.
Proof.
  induction doc as [| seg doc IH]; intros H; [reflexivity |].
  cbn [forallb] in H. apply andb_true_iff in H as [Hseg Hdoc].
  rewrite markdownOf_cons. destruct seg as [t | tag body].
  - cbn [renderSegment firstSqlTaggedBlock]. rewrite matchSqlFence_skip_plain; [auto |].
    simpl in Hseg. unfold no_backtick in *. now rewrite all_chars_app, Hseg.
  - rewrite render_fence_app. simpl in Hseg. apply andb_true_iff in Hseg as [Hbody Htag].
    destruct tag as [t |].
    + apply andb_true_iff in Htag as [Htick Hlf].
      cbn [firstSqlTaggedBlock]. destruct (String.eqb t "sql") eqn:E.
      * apply String.eqb_eq in E. subst t.
        change ("```" ++ "sql" ++ newline ++ body ++ newline ++ "```" ++ newline ++ markdownOf doc)
          with (("```sql" ++ newline) ++ body ++ newline ++ "```" ++ newline ++ markdownOf doc).
        apply matchSqlFence_here. now apply untilFenceClose_body.
      * apply String.eqb_neq in E.
        rewrite (matchSqlFence_other_fence t body _ Htick Hlf Hbody E). auto.
    + cbn [firstSqlTaggedBlock].
      rewrite (matchSqlFence_other_fence "" body _ eq_refl eq_refl Hbody); [auto | discriminate].
Qed.

End Documents.

Section Coordinator.

Variable message : Message.

Lemma autoRunTexts_textsOf st : autoRunTexts st = textsOf (calls st) (autoRuns st).
Proof. reflexivity. Qed.

(** Issuing further calls does not change the texts of earlier ones. *)
Lemma textsOf_app cs extra ns :
  Forall (fun n => (n < List.length cs)%nat) ns ->
  textsOf (cs ++ extra) ns = textsOf cs ns.
Proof.
  unfold textsOf. induction 1 as [| n ns Hn _ IH]; [reflexivity |].
  cbn [flat_map]. rewrite IH. now rewrite nth_error_app1.
Qed.

Lemma Forall_lt_app (cs extra : list BackendCall) ns :
  Forall (fun n => (n < List.length cs)%nat) ns ->
  Forall (fun n => (n < List.length (cs ++ extra))%nat) ns.
Proof.
  intros H. eapply Forall_impl; [| exact H].
  intros n Hn. cbv beta in *. rewrite length_app. lia.
Qed.

(** The effect either does nothing, or, on an assistant message whose
    flag is clear and whose first match passes the gate, sets the flag and
    issues one call. *)
Lemma autoRunEffect_cases dbContext st :
  autoRunEffect message dbContext st = st
  \/ exists ctx group,
       dbContext = Some ctx
       /\ hasAutoRun st = false
       /\ role message = assistant
       /\ matchSqlFence (content message) = Some group
       /\ eligible group = true
       /\ autoRunEffect message dbContext st
          = handleRunQuery (Some ctx) (trim group) (markAutoRun st).
Proof.
  unfold autoRunEffect.
  destruct dbContext as [ctx |]; [| now left].
  destruct (hasAutoRun st) eqn:Hflag; [now left |].
  destruct (role message) eqn:Hrole; [now left |].
  destruct (matchSqlFence (content message)) as [group |] eqn:Hmatch; [| now left].
  destruct (negb (String.eqb group "")) eqn:Hne; [| now left].
  destruct (readOnlyPrefix (trim group)) eqn:Hgate; [| now left].
  right. exists ctx, group. repeat split; try reflexivity.
  unfold eligible. now rewrite Hne, Hgate.
Qed.

Lemma handleRunQuery_auto_inv ctx sql st :
  auto_inv message st -> auto_inv message (handleRunQuery ctx sql st).
Proof.
  destruct ctx as [ctx |]; [| trivial].
  intros [Hb H]. split; cbn [handleRunQuery calls autoRuns hasAutoRun].
  - now apply Forall_lt_app.
  - destruct H as [H | (Hf & Hr & group & n & Hn & Hm & He & Ht)]; [now left | right].
    split; [exact Hf |]. split; [exact Hr |].
    exists group, n. split; [exact Hn |]. split; [exact Hm |]. split; [exact He |].
    now rewrite textsOf_app.
Qed.

Lemma resumeRunQuery_auto_inv n o st :
  auto_inv message st -> auto_inv message (resumeRunQuery n o st).
Proof.
  unfold resumeRunQuery. destruct (existsb _ _); [| trivial].
  intros H. exact H.
Qed.

Lemma autoRunEffect_auto_inv ctx st :
  auto_inv message st -> auto_inv message (autoRunEffect message ctx st).
Proof.
  intros Hinv.
  destruct (autoRunEffect_cases ctx st)
    as [-> | (c & group & -> & Hflag & Hrole & Hmatch & Hgate & ->)]; [exact Hinv |].
  destruct Hinv as [Hb [[_ Hnone] | (Hf & _)]]; [| congruence].
  split; cbn [handleRunQuery markAutoRun calls autoRuns hasAutoRun].
  - rewrite Hnone. cbn [app]. apply Forall_cons; [| apply Forall_nil].
    rewrite length_app. cbn [List.length]. lia.
  - right. split; [reflexivity |]. split; [exact Hrole |].
    exists group, (List.length (calls st)). rewrite Hnone.
    split; [reflexivity |]. split; [exact Hmatch |]. split; [exact Hgate |].
    unfold textsOf. cbn [app flat_map].
    rewrite nth_error_app2 by lia. now rewrite Nat.sub_diag.
Qed.

Lemma step_auto_inv st e : auto_inv message st -> auto_inv message (step message st e).
Proof.
  destruct e; cbn [step].
  - apply autoRunEffect_auto_inv.
  - apply handleRunQuery_auto_inv.
  - apply resumeRunQuery_auto_inv.
Qed.

Lemma handleRunQuery_display_inv ctx sql st :
  display_inv (handleRunQuery (Some ctx) sql st).
Proof.
  unfold display_inv. cbn [handleRunQuery executionResult pending].
  left. now destruct (pending st).
Qed.

Lemma step_display_inv st e : display_inv st -> display_inv (step message st e).
Proof.
  intros Hinv. destruct e as [ctx | ctx code | n o]; cbn [step].
  - destruct (autoRunEffect_cases ctx st) as [-> | (c & group & _ & _ & _ & _ & _ & ->)];
      [exact Hinv |].
    apply handleRunQuery_display_inv.
  - destruct ctx as [ctx |]; [| exact Hinv]. apply handleRunQuery_display_inv.
  - unfold resumeRunQuery. destruct (existsb _ _); [| exact Hinv].
    unfold display_inv. cbn [executionResult settled]. now exists (settled st), n.
Qed.

Lemma Forall_lt_S (len : nat) ns :
  Forall (fun k => (k < len)%nat) ns -> Forall (fun k => (k < len + 1)%nat) ns.
Proof. intros H. eapply Forall_impl; [| exact H]. intros k Hk. cbv beta in *. lia. Qed.

Lemma issue_ids_inv ctx sql st st0 :
  pending st0 = pending st -> calls st0 = calls st -> settled st0 = settled st ->
  ids_inv st -> ids_inv (handleRunQuery (Some ctx) sql st0).
Proof.
  intros Ep Ec Es (Hnd & Hdis & Hp & Hs).
  unfold ids_inv. cbn [handleRunQuery settled pending calls].
  rewrite Ep, Ec, Es, length_app. cbn [List.length].
  split; [exact Hnd |]. split; [| split].
  - intros k Hk Hin. apply in_app_or in Hk as [Hk | [E | []]]; [exact (Hdis k Hk Hin) |].
    subst k. rewrite Forall_forall in Hs. specialize (Hs _ Hin). cbv beta in Hs. lia.
  - apply Forall_app. split; [now apply Forall_lt_S |].
    apply Forall_cons; [lia | apply Forall_nil].
  - now apply Forall_lt_S.
Qed.

Lemma step_ids_inv st e : ids_inv st -> ids_inv (step message st e).
Proof.
  intros Hinv. destruct e as [ctx | ctx code | n o]; cbn [step].
  - destruct (autoRunEffect_cases ctx st) as [-> | (c & group & _ & _ & _ & _ & _ & ->)];
      [exact Hinv |].
    now apply (issue_ids_inv c (trim group) st).
  - destruct ctx as [ctx |]; [| exact Hinv]. now apply (issue_ids_inv ctx code st).
  - unfold resumeRunQuery. destruct (existsb (Nat.eqb n) (pending st)) eqn:E; [| exact Hinv].
    apply existsb_exists in E as (k & Hk & Ek). apply Nat.eqb_eq in Ek. subst k.
    destruct Hinv as (Hnd & Hdis & Hp & Hs).
    unfold ids_inv. cbn [settled pending calls]. rewrite map_app. cbn [map fst].
    split; [| split; [| split]].
    + apply NoDup_app; [exact Hnd | apply NoDup_cons; [intros [] | apply NoDup_nil] |].
      intros k Hin [E | []]. subst k. exact (Hdis n Hk Hin).
    + intros k Hin. apply filter_In in Hin as [Hin Hne].
      apply negb_true_iff, Nat.eqb_neq in Hne.
      intros Hmem. apply in_app_or in Hmem as [Hmem | [E | []]]; [exact (Hdis k Hin Hmem) | auto].
    + rewrite Forall_forall in *. intros k Hin. apply filter_In in Hin as [Hin _]. auto.
    + apply Forall_app. split; [exact Hs |].
      apply Forall_cons; [| apply Forall_nil].
      rewrite Forall_forall in Hp. exact (Hp n Hk).
Qed.


(** Every state reached from the mounted component satisfies an invariant
    that holds initially and is kept by every step. *)
Lemma run_invariant (P : ChatState -> Prop) :
  P mounted -> (forall st e, P st -> P (step message st e)) ->
  forall events, P (run message events).
Proof.
  intros H0 Hstep events. unfold run.
  generalize dependent mounted.
  induction events as [| e events IH]; intros st Hst; [exact Hst |].
  cbn [fold_left]. apply IH. now apply Hstep.
Qed.

Lemma run_auto_inv events : auto_inv message (run message events).
Proof.
  apply run_invariant; [| apply step_auto_inv].
  split; [constructor | now left].
Qed.

Lemma run_display_inv events : display_inv (run message events).
Proof.
  apply run_invariant; [| apply step_display_inv]. now right.
Qed.


(** Whatever happens to a mounted message, the effect passes at most one
    text to the backend: the trimmed group of the first match of the
    expression in the content, and only when that group passes the gate. *)
Lemma auto_run_first_match events :
  let st := run message events in
  (List.length (autoRunTexts st) <= 1)%nat
  /\ forall sql, In sql (autoRunTexts st) ->
       role message = assistant
       /\ exists group, matchSqlFence (content message) = Some group
                        /\ eligible group = true /\ sql = trim group.
Proof.
  cbv zeta. rewrite autoRunTexts_textsOf.
  destruct (run_auto_inv events) as [_ [[_ Hnone] | (_ & Hr & group & n & _ & Hm & He & Ht)]].
  - rewrite Hnone. split; [cbn; lia | intros sql []].
  - rewrite Ht. split; [cbn; lia |].
    intros sql [<- | []]. split; [exact Hr |]. now exists group.
Qed.

End Coordinator.

Lemma lower_case_first_fence doc :
  lower_case_sql_tags doc = true -> firstSqlTaggedBlock doc = firstFenceTaggedSql doc.
Proof.
  induction doc as [| seg doc IH]; [reflexivity |].
  cbn [lower_case_sql_tags forallb]. fold (lower_case_sql_tags doc).
  rewrite andb_true_iff. intros [Hseg Hdoc].
  destruct seg as [t | [t |] body]; cbn [firstSqlTaggedBlock firstFenceTaggedSql]; auto.
  destruct (String.eqb t "sql") eqn:E.
  - apply String.eqb_eq in E. now subst t.
  - destruct (String.eqb (toLowerCase t) "sql"); [discriminate Hseg | auto].
Qed.

(** C1, as amended.  Automatic execution fires at most once per mounted
    message, whatever the sequence of renders, clicks and responses, and
    only with the trimmed group of the first match of the expression in the
    raw content, when that group passes the gate.  For a message written as
    prose and fenced blocks, with [sql] tags in lower case, that is the
    first fenced block tagged [sql]: a block tagged [mongodb] is passed
    over, and no later block is ever run automatically. *)
Theorem auto_run_once_first_sql_fence
        (message : Message) (doc : list Segment) (events : list Event) :
  content message = markdownOf doc ->
  forallb plain_segment doc = true ->
  lower_case_sql_tags doc = true ->
  let st := run message events in
  (List.length (autoRunTexts st) <= 1)%nat
  /\ forall sql, In sql (autoRunTexts st) ->
       role message = assistant
       /\ (exists group, matchSqlFence (content message) = Some group
                         /\ eligible group = true /\ sql = trim group)
       /\ (exists body, firstFenceTaggedSql doc = Some body
                        /\ eligible body = true /\ sql = trim body).
Proof.
  intros Hcontent Hplain Hlower st.
  destruct (auto_run_first_match message events) as [Hlen Hin].
  split; [exact Hlen |].
  intros sql Hsql. destruct (Hin sql Hsql) as (Hr & group & Hm & He & Ht).
  split; [exact Hr |]. split; [now exists group |]. exists group.
  rewrite Hcontent, (matchSqlFence_markdown doc Hplain), (lower_case_first_fence doc Hlower) in Hm.
  auto.
Qed.

Lemma auto_run_once_first_sql_fence_witness :
  let message := assistant_message two_selects in
  let st := run message
                [EffectRuns (Some sample_context); CallEnds 0 (one_column "n");
                 EffectRuns (Some sample_context); EffectRuns (Some sample_context)] in
  (List.length (autoRunTexts st) <= 1)%nat
  /\ forall sql, In sql (autoRunTexts st) ->
       role message = assistant
       /\ (exists group, matchSqlFence (content message) = Some group
                         /\ eligible group = true /\ sql = trim group)
       /\ (exists body, firstFenceTaggedSql two_selects = Some body
                        /\ eligible body = true /\ sql = trim body).
Proof.
  exact (auto_run_once_first_sql_fence (assistant_message two_selects) two_selects _
           eq_refl eq_refl eq_refl).
Defined.

(** Two renders of the message with two [sql] fences: one call, for the
    first block. *)
Example auto_run_two_selects :
  autoRunTexts (run (assistant_message two_selects)
                    [EffectRuns (Some sample_context); EffectRuns (Some sample_context)])
  = ["SELECT 1"].
Proof. reflexivity. Qed.

(** C1, as stated, fails when the first SQL-classified block is tagged
    [mongodb]: that block is the first in document order and does not pass
    the gate, so nothing should run, and the effect runs the later [sql]
    block.  It also fails when the first block is tagged [SQL] in upper
    case: both blocks start with SELECT and the second is the one run. *)
Lemma auto_run_not_first_classified :
  (classify (classNameOfTag (Some "mongodb")) = KSql
   /\ firstSqlBlock mongo_then_sql = Some "db.orders.find({})"
   /\ eligible "db.orders.find({})" = false
   /\ autoRunTexts (run (assistant_message mongo_then_sql)
                        [EffectRuns (Some sample_context)]) = ["SELECT 2"])
  /\ (classify (classNameOfTag (Some "SQL")) = KSql
      /\ classify (classNameOfTag (Some "sql")) = KSql
      /\ firstSqlBlock upper_then_lower = Some "SELECT 1"
      /\ eligible "SELECT 1" = true
      /\ eligible "SELECT 2" = true
      /\ autoRunTexts (run (assistant_message upper_then_lower)
                           [EffectRuns (Some sample_context)]) = ["SELECT 2"]).
Proof. repeat split. Qed.




(** When the responses arrive in the order of the calls, the result of
    the latest call is displayed. *)
Example in_order_responses :
  let st := run (assistant_message two_selects)
                [RunClicked (Some sample_context) "SELECT 1";
                 RunClicked (Some sample_context) "SELECT 2";
                 CallEnds 0 (one_column "first"); CallEnds 1 (one_column "second")] in
  executionResult st = resultOfCall st (latestCall st).
Proof. reflexivity. Qed.

(** C10.  Without a connection context [handleRunQuery] does nothing: the
    state is the same, so the executing flag is not set, no call reaches
    the backend and the displayed result stays; a click without context
    anywhere in the life of a message leaves no trace. *)
Theorem handleRunQuery_without_context (sql : string) (st : ChatState) :
  handleRunQuery None sql st = st
  /\ isExecuting (handleRunQuery None sql st) = isExecuting st
  /\ calls (handleRunQuery None sql st) = calls st
  /\ pending (handleRunQuery None sql st) = pending st
  /\ executionResult (handleRunQuery None sql st) = executionResult st
  /\ forall message before after,
       run message (before ++ RunClicked None sql :: after) = run message (before ++ after).
Proof.
  repeat split.
  intros message before after. unfold run. now rewrite !fold_left_app.
Qed.

(** ** Data visualizer *)

Section NumericColumns.

Variable FiniteToString : Q -> string.

Lemma numericKeys_In headers data h :
  In h (numericKeys FiniteToString headers data)
  <-> In h headers /\ finiteNumeric FiniteToString (firstRowValue data h) = true.
Proof. unfold numericKeys. apply filter_In. Qed.


End NumericColumns.



(** The month column is text although its later rows are numbers; with no
    row at all no column is numeric.  The test is not the one of the table
    extractor: the text 1e5 is left a string there and is numeric here. *)
Example monthly_columns :
  numericKeys Printer.printFinite ["month"; "total"] monthly = ["total"]
  /\ numericKeys Printer.printFinite ["month"; "total"] [] = []
  /\ coerceCell "1e5" = JStr "1e5"
  /\ finiteNumeric Printer.printFinite (JStr "1e5") = true.
Proof. vm_compute. repeat split. Qed.

Section CsvExport.

Lemma split_plain c p :
  all_chars (fun a => negb (Ascii.eqb a c)) p = true -> split c p = [p].
Proof.
  induction p as [| a p IH]; [reflexivity |].
  rewrite all_chars_cons, andb_true_iff, negb_true_iff. intros [Ha Hp].
  cbn [split]. now rewrite Ha, (IH Hp).
Qed.

Lemma split_app_sep c p r :
  all_chars (fun a => negb (Ascii.eqb a c)) p = true ->
  split c (p ++ String c r) = p :: split c r.
Proof.
  induction p as [| a p IH].
  - intros _. cbn [append split]. now rewrite Ascii.eqb_refl.
  - rewrite all_chars_cons, andb_true_iff, negb_true_iff. intros [Ha Hp].
    cbn [append split]. now rewrite Ha, (IH Hp).
Qed.

Lemma join_cons2 sep x y rest : join sep (x :: y :: rest) = x ++ sep ++ join sep (y :: rest).
Proof. reflexivity. Qed.

(** Splitting a joined list gives the list back when no part holds the
    separator. *)
Lemma split_join c parts :
  parts <> [] ->
  Forall (fun p => all_chars (fun a => negb (Ascii.eqb a c)) p = true) parts ->
  split c (join (String c "") parts) = parts.
Proof.
  intros Hne H. induction H as [| p parts Hp Hparts IH]; [contradiction |].
  destruct parts as [| q parts].
  - cbn [join]. now apply split_plain.
  - rewrite join_cons2. cbn [append]. rewrite (split_app_sep c p _ Hp).
    f_equal. apply IH. discriminate.
Qed.

(** A joined list is free of a character when the separator and the
    parts are. *)
Lemma all_chars_join f sep parts :
  all_chars f sep = true -> Forall (fun p => all_chars f p = true) parts ->
  all_chars f (join sep parts) = true.
Proof.
  intros Hsep H. induction H as [| p parts Hp Hparts IH]; [reflexivity |].
  destruct parts as [| q parts]; [exact Hp |].
  rewrite join_cons2, !all_chars_app, Hp, Hsep. exact IH.
Qed.

Lemma csvContent_lines fts headers data :
  csvContent fts headers data
  = join newline (join "," headers :: map (csvLine fts headers) data).
Proof. reflexivity. Qed.

Lemma csvLine_no_line_feed fts headers row :
  Forall (fun h => no_line_feed (ToString fts (lookupProp h row)) = true) headers ->
  no_line_feed (csvLine fts headers row) = true.
Proof.
  intros H. unfold csvLine, no_line_feed. apply all_chars_join; [reflexivity |].
  apply Forall_map. eapply Forall_impl; [| exact H].
  intros h Hh. cbv beta in *. unfold no_line_feed in Hh.
  now rewrite !all_chars_app, Hh.
Qed.

End CsvExport.

(** C9, as amended.  For every dataset with at least one header, no comma
    and no line feed in a header and no line feed in the text of a value,
    the export is the header line, in the declared order, followed by one
    line per data row with every value individually quoted; splitting it by
    line and the header line by comma gives back the same headers and the
    same number of rows. *)
Theorem csv_round_trip
        (FiniteToString : Q -> string) (headers : list string) (data : list JsObject) :
  splittable FiniteToString headers data ->
  let lines := split LF (csvContent FiniteToString headers data) in
  split "," (hd "" lines) = headers
  /\ List.length (tl lines) = List.length data
  /\ tl lines = map (fun row =>
                       join "," (map (fun h => dquote ++ ToString FiniteToString (lookupProp h row)
                                                     ++ dquote) headers)) data.
Proof.
  intros (Hne & Hheaders & Hdata) lines.
  assert (Hlines : lines = join "," headers :: map (csvLine FiniteToString headers) data).
  { unfold lines. rewrite csvContent_lines. apply split_join; [discriminate |].
    apply Forall_cons.
    - apply (all_chars_join _ ","); [reflexivity |].
      eapply Forall_impl; [| exact Hheaders]. now intros h [_ Hh].
    - apply Forall_map. eapply Forall_impl; [| exact Hdata].
      intros row Hrow. now apply csvLine_no_line_feed. }
  rewrite Hlines. cbn [hd tl]. split; [| split].
  - apply split_join; [exact Hne |].
    eapply Forall_impl; [| exact Hheaders]. now intros h [Hh _].
  - apply length_map.
  - reflexivity.
Qed.

Lemma csv_round_trip_witness :
  let lines := split LF (csvContent Printer.printFinite ["month"; "total"] monthly) in
  split "," (hd "" lines) = ["month"; "total"]
  /\ List.length (tl lines) = List.length monthly
  /\ tl lines = map (fun row =>
                       join "," (map (fun h => dquote ++ ToString Printer.printFinite (lookupProp h row)
                                                     ++ dquote) ["month"; "total"])) monthly.
Proof.
  apply (csv_round_trip Printer.printFinite ["month"; "total"] monthly).
  split; [discriminate |]. split.
  - repeat (apply Forall_cons; [split; reflexivity |]). apply Forall_nil.
  - repeat (apply Forall_cons; [repeat (apply Forall_cons; [reflexivity |]); apply Forall_nil |]).
    apply Forall_nil.
Defined.

(** C9, as stated, fails: the header line is not quoted, so a header with
    a comma comes back as two; and a value with a line feed comes back as
    two rows. *)
Lemma csv_resplit_broken :
  (let headers := ["city, state"] in
   let data := [[("city, state", JStr "Paris")]] in
   split "," (hd "" (split LF (csvContent Printer.printFinite headers data)))
   = ["city"; " state"])
  /\ (let headers := ["note"] in
      let data := [[("note", JStr ("first" ++ newline ++ "second"))]] in
      List.length (tl (split LF (csvContent Printer.printFinite headers data))) = 2%nat
      /\ List.length data = 1%nat).
Proof. repeat split. Qed.

(** ** Regular expressions *)

Section RegexFacts.

Import Regex.

Lemma append_nil_inv (a b : string) : a ++ b = "" -> a = "" /\ b = "".
Proof. destruct a; [auto | discriminate]. Qed.

Lemma Matches_Seq r1 r2 s :
  Matches (Seq r1 r2) s <-> exists s1 s2, s = s1 ++ s2 /\ Matches r1 s1 /\ Matches r2 s2.
Proof.
  split.
  - intros H. inversion H; subst. eauto.
  - intros (s1 & s2 & -> & H1 & H2). now constructor.
Qed.

Lemma nullable_spec r : nullable r = true <-> Matches r "".
Proof.
  induction r as [| p | r1 IH1 r2 IH2 | r1 IH1 r2 IH2 | r IH]; cbn [nullable].
  - split; [constructor | reflexivity].
  - split; [discriminate | inversion 1].
  - rewrite andb_true_iff, IH1, IH2. split.
    + intros [H1 H2]. exact (MSeq _ _ "" "" H1 H2).
    + intros H. apply Matches_Seq in H as (s1 & s2 & E & H1 & H2).
      symmetry in E. apply append_nil_inv in E as [-> ->]. auto.
  - rewrite orb_true_iff, IH1, IH2. split.
    + intros [H | H]; [now apply MAltL | now apply MAltR].
    + intros H. inversion H; subst; auto.
  - split; [constructor | reflexivity].
Qed.

Lemma Matches_Star_cons r c s :
  Matches (Star r) (String c s) ->
  exists s1 s2, s = s1 ++ s2 /\ Matches r (String c s1) /\ Matches (Star r) s2.
Proof.
  remember (Star r) as r0 eqn:Er. remember (String c s) as w eqn:Ew.
  intros H. revert s Ew.
  induction H as [| | | | | | r' s1 s2 H1 _ H2 IH2]; intros t Ew; try discriminate.
  injection Er as ->. destruct s1 as [| c' s1].
  - simpl in Ew. apply IH2; [reflexivity | exact Ew].
  - simpl in Ew. injection Ew as -> <-. now exists s1, s2.
Qed.

Lemma matched_alt a b s : matched (alt a b) s <-> matched a s \/ matched b s.
Proof.
  destruct a as [x |], b as [y |]; cbn [alt matched]; try tauto.
  split.
  - intros H. inversion H; subst; auto.
  - intros [H | H]; [now apply MAltL | now apply MAltR].
Qed.

Lemma matched_seq_r a r s :
  matched (seq_r a r) s <->
  exists s1 s2, s = s1 ++ s2 /\ matched a s1 /\ Matches r s2.
Proof.
  destruct a as [x |]; cbn [seq_r option_map matched].
  - split.
    + intros H. inversion H; subst. eauto.
    + intros (s1 & s2 & -> & H1 & H2). now constructor.
  - split; [contradiction | intros (? & ? & _ & [] & _)].
Qed.

(** The residual of an expression by [c] matches what is left of the
    words that start with [c]. *)
Lemma residual_spec r : forall c s,
  Matches r (String c s) <-> matched (residual c r) s.
Proof.
  induction r as [| p | r1 IH1 r2 IH2 | r1 IH1 r2 IH2 | r IH]; intros c s; cbn [residual].
  - split; [inversion 1 | contradiction].
  - destruct (p c) eqn:E; cbn [matched]; split.
    + intros H. inversion H; subst. constructor.
    + intros H. inversion H; subst. now constructor.
    + intros H. inversion H; subst. congruence.
    + contradiction.
  - rewrite matched_alt, matched_seq_r. split.
    + intros H. apply Matches_Seq in H as (s1 & s2 & E & H1 & H2).
      destruct s1 as [| c' s1].
      * right. simpl in E. subst s2.
        apply nullable_spec in H1. rewrite H1. now apply IH2.
      * left. simpl in E. injection E as <- ->.
        exists s1, s2. split; [reflexivity |]. split; [now apply IH1 | exact H2].
    + intros [(s1 & s2 & -> & H1 & H2) | H].
      * apply IH1 in H1. exact (MSeq _ _ (String c s1) s2 H1 H2).
      * destruct (nullable r1) eqn:N; [| contradiction].
        apply nullable_spec in N. apply IH2 in H.
        exact (MSeq _ _ "" (String c s) N H).
  - rewrite matched_alt, <- IH1, <- IH2. split.
    + intros H. inversion H; subst; auto.
    + intros [H | H]; [now apply MAltL | now apply MAltR].
  - rewrite matched_seq_r. split.
    + intros H. apply Matches_Star_cons in H as (s1 & s2 & -> & H1 & H2).
      exists s1, s2. split; [reflexivity |]. split; [now apply IH | exact H2].
    + intros (s1 & s2 & -> & H1 & H2). apply IH in H1.
      exact (MStarS _ (String c s1) s2 H1 H2).
Qed.

(** The matcher decides the language of the expression. *)
Lemma test_spec s : forall r, test r s = true <-> Matches r s.
Proof.
  induction s as [| c s IH]; intros r; cbn [test].
  - apply nullable_spec.
  - rewrite residual_spec. destruct (residual c r) as [r' |]; cbn [matched].
    + apply IH.
    + split; [discriminate | contradiction].
Qed.

Lemma Matches_Chr p s : Matches (Chr p) s <-> exists c, s = String c "" /\ p c = true.
Proof.
  split.
  - intros H. inversion H; subst. eauto.
  - intros (c & -> & H). now constructor.
Qed.

Lemma Matches_Lit c s : Matches (Lit c) s <-> s = String c "".
Proof.
  unfold Lit. rewrite Matches_Chr. split.
  - intros (c' & -> & H). apply Ascii.eqb_eq in H. now subst.
  - intros ->. exists c. split; [reflexivity | apply Ascii.eqb_refl].
Qed.

Lemma Matches_Opt r s : Matches (Opt r) s <-> s = "" \/ Matches r s.
Proof.
  unfold Opt. split.
  - intros H. inversion H as [| | | ? ? ? H1 | ? ? ? H1 | |]; subst; [| now right].
    inversion H1. now left.
  - intros [-> | H]; [apply MAltL; constructor | now apply MAltR].
Qed.

Lemma Matches_Star_Chr p s : Matches (Star (Chr p)) s <-> all_chars p s = true.
Proof.
  split.
  - remember (Star (Chr p)) as r eqn:Er. intros H.
    induction H as [| | | | | | r' s1 s2 H1 _ H2 IH2]; try discriminate; [reflexivity |].
    injection Er as ->. apply Matches_Chr in H1 as (c & -> & Hc).
    cbn [append]. rewrite all_chars_cons, Hc. now apply IH2.
  - induction s as [| c s IH]; [constructor |].
    rewrite all_chars_cons, andb_true_iff. intros [Hc Hs].
    apply (MStarS _ (String c "") s); [now constructor | auto].
Qed.

Lemma Matches_Plus_Chr p s :
  Matches (Plus (Chr p)) s <-> s <> "" /\ all_chars p s = true.
Proof.
  unfold Plus. rewrite Matches_Seq. split.
  - intros (s1 & s2 & -> & H1 & H2).
    apply Matches_Chr in H1 as (c & -> & Hc). apply Matches_Star_Chr in H2.
    cbn [append]. rewrite all_chars_cons, Hc, H2. split; [discriminate | reflexivity].
  - intros [Hne H]. destruct s as [| c s]; [contradiction |].
    rewrite all_chars_cons, andb_true_iff in H. destruct H as [Hc Hs].
    exists (String c ""), s. split; [reflexivity |].
    split; [now constructor | now apply Matches_Star_Chr].
Qed.

(** The language of [numeric_re], spelled out. *)
Lemma numeric_re_shape v : Matches numeric_re v <-> numeric_shape v.
Proof.
  unfold numeric_re, numeric_shape. rewrite Matches_Seq. split.
  - intros (sign & rest & -> & Hsign & Hrest).
    apply Matches_Seq in Hrest as (body & frac & -> & Hbody & Hfrac).
    apply Matches_Opt in Hsign. rewrite Matches_Lit in Hsign.
    apply Matches_Plus_Chr in Hbody as [Hne Hbody].
    apply Matches_Opt in Hfrac.
    exists sign, body, frac. repeat split; try assumption.
    destruct Hfrac as [-> | Hfrac]; [now left | right].
    apply Matches_Seq in Hfrac as (dot & ds & -> & Hdot & Hds).
    apply Matches_Lit in Hdot. subst dot.
    apply Matches_Plus_Chr in Hds as [Hd1 Hd2]. now exists ds.
  - intros (sign & body & frac & -> & Hsign & Hne & Hbody & Hfrac).
    exists sign, (body ++ frac). split; [reflexivity |]. split.
    + apply Matches_Opt. rewrite Matches_Lit. exact Hsign.
    + apply Matches_Seq. exists body, frac. split; [reflexivity |]. split.
      * now apply Matches_Plus_Chr.
      * apply Matches_Opt. destruct Hfrac as [-> | (ds & -> & Hd1 & Hd2)]; [now left | right].
        apply Matches_Seq. exists ".", ds. split; [reflexivity |]. split.
        -- now apply Matches_Lit.
        -- now apply Matches_Plus_Chr.
Qed.

End RegexFacts.

(** ** Table extractor *)

Section CellCoercion.

Lemma finite_not_NaN n : negb (isNaN n) && numberIsFinite n = numberIsFinite n.
Proof. now destruct n. Qed.

Lemma coerceCell_eq v :
  coerceCell v =
    if numberIsFinite (parseFloat (removeCommas v)) && Regex.test numeric_re v
    then JNum (parseFloat (removeCommas v)) else JStr v.
Proof.
  unfold coerceCell. rewrite finite_not_NaN.
  now destruct (numberIsFinite _), (Regex.test numeric_re v).
Qed.

Lemma all_chars_weaken (p q : ascii -> bool) s :
  (forall c, p c = true -> q c = true) -> all_chars p s = true -> all_chars q s = true.
Proof.
  intros Hpq. induction s as [| c s IH]; [reflexivity |].
  rewrite !all_chars_cons, !andb_true_iff. intros [Hc Hs]. auto.
Qed.

(** A text of the numeric shape holds nothing but digits, commas and
    points after its optional minus. *)
Lemma numeric_shape_chars v : numeric_shape v -> numeric_chars v = true.
Proof.
  intros (sign & body & frac & -> & Hsign & Hne & Hbody & Hfrac).
  assert (Hrest : all_chars (fun c => is_digit c || Ascii.eqb c "," || Ascii.eqb c ".")
                    (body ++ frac) = true).
  { rewrite all_chars_app, andb_true_iff. split.
    - eapply all_chars_weaken; [| exact Hbody]. intros c Hc. cbv beta in *.
      now rewrite Hc.
    - destruct Hfrac as [-> | (ds & -> & _ & Hds)]; [reflexivity |].
      cbn [append]. rewrite all_chars_cons. cbn [Ascii.eqb Bool.eqb orb andb].
      rewrite orb_true_r. cbn [andb].
      eapply all_chars_weaken; [| exact Hds]. intros c Hc. cbv beta. now rewrite Hc. }
  unfold numeric_chars. destruct Hsign as [-> | ->]; cbn [append]; [| exact Hrest].
  destruct body as [| c body]; [contradiction |]. cbn [append] in *.
  assert (Hc : Ascii.eqb c "-" = false).
  { rewrite all_chars_cons, andb_true_iff in Hbody. destruct Hbody as [Hc _].
    destruct (Ascii.eqb c "-") eqn:E; [| reflexivity].
    apply Ascii.eqb_eq in E. subst c. discriminate Hc. }
  destruct c as [[] [] [] [] [] [] [] []]; try exact Hrest; discriminate Hc.
Qed.

End CellCoercion.

(** C5.  A cell text is promoted to a number iff it matches
    [^-?[\d,]+(\.\d+)?$] in full (an optional minus, digits and commas, an
    optional point with digits) and parses to a finite number once the
    commas are removed; otherwise it stays the string.  Date-like and mixed
    texts stay strings, and the table with header row [name | amount] and
    data row [Widget | 1,234.50] gives the name as a string and the amount
    as the number 1234.5. *)
Theorem cell_promoted_iff_numeric (v : string) :
  (Regex.test numeric_re v = true <-> numeric_shape v)
  /\ (numeric_shape v /\ numberIsFinite (parseFloat (removeCommas v)) = true ->
      coerceCell v = JNum (parseFloat (removeCommas v)))
  /\ (~ (numeric_shape v /\ numberIsFinite (parseFloat (removeCommas v)) = true) ->
      coerceCell v = JStr v)
  /\ (numeric_chars v = false -> coerceCell v = JStr v)
  /\ coerceCell "2023-01" = JStr "2023-01"
  /\ coerceCell "123abc" = JStr "123abc"
  /\ (forall FiniteToString,
        extractTableData FiniteToString widget_table
        = Normal (Some {| headers := ["name"; "amount"];
                          data := [[("name", JStr "Widget");
                                    ("amount", JNum (Finite (2469 # 2)))]] |}))
  /\ (2469 # 2 == 1234.5)%Q.
Proof.
  assert (Hshape : Regex.test numeric_re v = true <-> numeric_shape v).
  { rewrite test_spec. apply numeric_re_shape. }
  assert (Hstay : ~ (numeric_shape v /\ numberIsFinite (parseFloat (removeCommas v)) = true) ->
                  coerceCell v = JStr v).
  { intros Hnot. rewrite coerceCell_eq.
    destruct (numberIsFinite _) eqn:F; [| reflexivity].
    destruct (Regex.test numeric_re v) eqn:T; [| reflexivity].
    exfalso. apply Hnot. split; [now apply Hshape | reflexivity]. }
  split; [exact Hshape |]. split; [| split; [exact Hstay |]].
  - intros [Hs Hf]. apply Hshape in Hs. rewrite coerceCell_eq, Hf, Hs. reflexivity.
  - split.
    + intros Hchars. apply Hstay. intros [Hs _].
      apply numeric_shape_chars in Hs. congruence.
    + split; [vm_compute; reflexivity |]. split; [vm_compute; reflexivity |].
      split; [intros fts; vm_compute; reflexivity | reflexivity].
Qed.

Lemma cell_promoted_iff_numeric_witness :
  coerceCell "1,234.50" = JNum (Finite (2469 # 2)).
Proof.
  apply (proj1 (proj2 (cell_promoted_iff_numeric "1,234.50"))).
  split.
  - apply (proj1 (cell_promoted_iff_numeric "1,234.50")). vm_compute. reflexivity.
  - vm_compute. reflexivity.
Defined.

(** A text of only commas matches the expression and is no number; a run
    of digits too long for a finite number stays a string as well. *)
Example cell_not_promoted :
  Regex.test numeric_re "," = true /\ coerceCell "," = JStr ","
  /\ coerceCell "-1,000" = JNum (Finite (-1000))
  /\ coerceCell "+5" = JStr "+5"
  /\ coerceCell "1e5" = JStr "1e5".
Proof. vm_compute. repeat split. Qed.

Section Extractor.

Variable FiniteToString : Q -> string.

(** [getText] as the source writes it: nothing for a falsy node, the value
    of a text node, the joined texts of the children of any other node. *)
Lemma getText_eq n :
  getText FiniteToString n =
    if negb (truthy n) then JStr ""
    else match getMember n "type", getMember n "value", getMember n "children" with
         | Normal ty, Normal value, Normal children =>
             if isString ty "text" then or_else value (JStr "")
             else match children with
                  | JArr items =>
                      JStr (joinValues FiniteToString ""
                                       (map (getText FiniteToString) items))
                  | _ => JStr ""
                  end
         | _, _, _ => JStr ""
         end.
Proof.
  destruct n as [| | b | n | s | items | props]; try reflexivity.
  - now destruct b.
  - destruct n as [| neg | q]; try reflexivity. cbn [truthy]. now destruct (Qeq_bool q 0).
  - cbn [truthy]. now destruct (String.eqb s "").
  - cbn [truthy negb getMember getText].
    destruct (isString (lookupProp "type" props) "text"); [reflexivity |].
    induction props as [| [k v] props IH]; [reflexivity |].
    cbn [lookupProp]. destruct (String.eqb k "children"); [reflexivity | exact IH].
Qed.

Lemma bind_Normal {A B} (c : completion A) (k : A -> completion B) r :
  bind c k = Normal r -> exists a, c = Normal a /\ k a = Normal r.
Proof. destruct c as [a | e]; [intros H; now exists a | discriminate]. Qed.

Lemma hasTag_true tag c :
  hasTag tag c = Normal true ->
  exists cprops, c = JObj cprops /\ lookupProp "tagName" cprops = JStr tag.
Proof.
  unfold hasTag. intros H. apply bind_Normal in H as (t & Ht & H).
  injection H as H. destruct c; try discriminate Ht;
    cbn [getMember] in Ht; injection Ht as <-; try discriminate H.
  exists props. split; [reflexivity |].
  destruct (lookupProp "tagName" props); try discriminate H.
  cbn [isString] in H. apply String.eqb_eq in H. now subst.
Qed.

Lemma findTag_found tag items v :
  findTag tag items = Normal v -> truthy v = true ->
  In v items /\ hasTag tag v = Normal true.
Proof.
  induction items as [| c items IH]; cbn [findTag].
  - intros H. injection H as <-. discriminate.
  - intros H Hv. apply bind_Normal in H as (b & Hb & H). destruct b.
    + injection H as <-. split; [now left | exact Hb].
    + destruct (IH H Hv). split; [now right | assumption].
Qed.

Lemma filterTag_kept tag items kept :
  filterTag tag items = Normal kept ->
  forall c, In c kept -> In c items /\ hasTag tag c = Normal true.
Proof.
  revert kept. induction items as [| x items IH]; cbn [filterTag]; intros kept H c Hc.
  - injection H as <-. destruct Hc.
  - apply bind_Normal in H as (b & Hb & H).
    apply bind_Normal in H as (rest & Hrest & H). injection H as <-.
    destruct b.
    + destruct Hc as [<- | Hc]; [split; [now left | exact Hb] |].
      destruct (IH _ Hrest c Hc). split; [now right | assumption].
    + destruct (IH _ Hrest c Hc). split; [now right | assumption].
Qed.

Lemma callFind_Normal v tag r :
  callFind v tag = Normal r -> exists items, v = JArr items /\ findTag tag items = Normal r.
Proof. destruct v; try discriminate. intros H. now exists items. Qed.

Lemma callFilter_Normal v tag kept :
  callFilter v tag = Normal kept ->
  exists items, v = JArr items /\ filterTag tag items = Normal kept.
Proof. destruct v; try discriminate. intros H. now exists items. Qed.

Lemma getMember_array v name items :
  getMember v name = Normal (JArr items) ->
  exists props, v = JObj props /\ lookupProp name props = JArr items.
Proof.
  destruct v; try discriminate; cbn [getMember]; intros H; injection H as H;
    try discriminate H.
  now exists props.
Qed.

Lemma mapM_length {A B} (f : A -> completion B) items ys :
  mapM f items = Normal ys -> List.length ys = List.length items.
Proof.
  revert ys. induction items as [| x items IH]; cbn [mapM]; intros ys H.
  - now injection H as <-.
  - apply bind_Normal in H as (y & _ & H). apply bind_Normal in H as (rest & Hrest & H).
    injection H as <-. cbn [List.length]. now rewrite (IH _ Hrest).
Qed.

(** A child found by [find] or kept by [filter] is a child with that tag. *)
Lemma found_child tag parent items c :
  getMember parent "children" = Normal (JArr items) ->
  In c items -> hasTag tag c = Normal true ->
  child_with_tag tag parent c.
Proof.
  intros Hp Hin Htag.
  apply getMember_array in Hp as (props & -> & Hp).
  apply hasTag_true in Htag as (cprops & -> & Htag).
  now exists props, items, cprops.
Qed.

Lemma or_else_array v items : or_else v (JArr []) = JArr items -> items <> [] -> v = JArr items.
Proof.
  unfold or_else. destruct (truthy v); [auto |].
  intros H. injection H as <-. contradiction.
Qed.

(** A dataset comes out of the body only through every check. *)
Lemma extractTableData_body_some node ds :
  extractTableData_body FiniteToString node = Normal (Some ds) ->
  has_header_cell node /\ has_body_row node /\ headers ds <> [] /\ data ds <> [].
Proof.
  unfold extractTableData_body. intros H.
  apply bind_Normal in H as (nodeChildren & Hchildren & H).
  apply bind_Normal in H as (thead & Hthead & H).
  apply bind_Normal in H as (tbody & Htbody & H).
  destruct (truthy thead) eqn:Tthead; [| discriminate H]. cbn [negb] in H.
  apply bind_Normal in H as (theadChildren & HtheadC & H).
  apply bind_Normal in H as (headerRow & HheaderRow & H).
  destruct (truthy headerRow) eqn:Trow; [| discriminate H]. cbn [negb] in H.
  apply bind_Normal in H as (rowChildren & HrowC & H).
  apply bind_Normal in H as (headerCells & Hcells & H).
  apply bind_Normal in H as (hs & Hhs & H).
  destruct (List.length hs =? 0)%nat eqn:Lhs; [discriminate H |].
  apply bind_Normal in H as (dataRows & Hrows & H).
  apply bind_Normal in H as (rowsData & Hdata & H).
  destruct (List.length rowsData =? 0)%nat eqn:Ldata; [discriminate H |].
  injection H as <-. cbn [headers data].
  apply Nat.eqb_neq in Lhs, Ldata.
  (* the header group and the body group among the children of the node *)
  apply callFind_Normal in Hthead as (items & Hitems & Hthead).
  apply callFind_Normal in Htbody as (items' & Hitems' & Htbody).
  rewrite Hitems in Hitems'. injection Hitems' as <-.
  destruct (findTag_found _ _ _ Hthead Tthead) as [Hin_thead Htag_thead].
  assert (Hnode : getMember node "children" = Normal (JArr items)).
  { rewrite Hchildren. f_equal. apply or_else_array; [exact Hitems |].
    intros ->. destruct Hin_thead. }
  pose proof (found_child _ _ _ _ Hnode Hin_thead Htag_thead) as Cthead.
  (* the header row *)
  assert (Hrow : exists trs, theadChildren = JArr trs /\ findTag "tr" trs = Normal headerRow).
  { destruct theadChildren; try (injection HheaderRow as <-; discriminate Trow);
      try discriminate HheaderRow.
    now exists items0. }
  destruct Hrow as (trs & -> & Hrow).
  destruct (findTag_found _ _ _ Hrow Trow) as [Hin_row Htag_row].
  pose proof (found_child _ _ _ _ HtheadC Hin_row Htag_row) as Crow.
  (* the header cells *)
  apply callFilter_Normal in Hcells as (cells & -> & Hcells).
  apply mapM_length in Hhs.
  destruct headerCells as [| th headerCells]; [cbn in Hhs; lia |].
  destruct (filterTag_kept _ _ _ Hcells th (or_introl eq_refl)) as [Hin_th Htag_th].
  pose proof (found_child _ _ _ _ HrowC Hin_th Htag_th) as Cth.
  (* the data rows *)
  apply mapM_length in Hdata.
  destruct dataRows as [| row dataRows]; [cbn in Hdata; lia |].
  destruct (truthy tbody) eqn:Ttbody; [| discriminate Hrows].
  apply bind_Normal in Hrows as (tbodyChildren & HtbodyC & Hrows).
  apply callFilter_Normal in Hrows as (brows & -> & Hrows).
  destruct (findTag_found _ _ _ Htbody Ttbody) as [Hin_tbody Htag_tbody].
  pose proof (found_child _ _ _ _ Hnode Hin_tbody Htag_tbody) as Ctbody.
  destruct (filterTag_kept _ _ _ Hrows row (or_introl eq_refl)) as [Hin_brow Htag_brow].
  pose proof (found_child _ _ _ _ HtbodyC Hin_brow Htag_brow) as Cbrow.
  split; [now exists thead, headerRow, th |].
  split; [now exists tbody, row |].
  split; intros E; rewrite E in *; cbn in *; lia.
Qed.

Lemma extractTableData_some node ds :
  extractTableData FiniteToString node = Normal (Some ds) ->
  extractTableData_body FiniteToString node = Normal (Some ds).
Proof.
  unfold extractTableData, try_catch.
  destruct (extractTableData_body FiniteToString node); [auto | discriminate].
Qed.

Lemma extractTableData_returns node :
  exists r, extractTableData FiniteToString node = Normal r.
Proof.
  unfold extractTableData, try_catch.
  destruct (extractTableData_body FiniteToString node) as [r | e]; eauto.
Qed.

End Extractor.

(** C6.  The extractor always returns, and never throws, whatever the
    shape of the node; it returns no dataset whenever the node has no
    header group, whenever no header cell is found, and whenever there is
    no data row; a dataset that is returned has at least one header and one
    row. *)
Theorem extractTableData_never_throws (FiniteToString : Q -> string) (node : JsVal) :
  (exists r, extractTableData FiniteToString node = Normal r)
  /\ ((forall thead, ~ child_with_tag "thead" node thead) ->
      extractTableData FiniteToString node = Normal None)
  /\ (~ has_header_cell node -> extractTableData FiniteToString node = Normal None)
  /\ (~ has_body_row node -> extractTableData FiniteToString node = Normal None)
  /\ (forall ds, extractTableData FiniteToString node = Normal (Some ds) ->
                 headers ds <> [] /\ data ds <> []).
Proof.
  assert (Hnone : forall P : Prop,
             (forall ds, extractTableData_body FiniteToString node = Normal (Some ds) -> P) ->
             ~ P -> extractTableData FiniteToString node = Normal None).
  { intros P HP HnP.
    destruct (extractTableData_returns FiniteToString node) as [[ds |] Hr]; [| exact Hr].
    exfalso. apply HnP, (HP ds). now apply extractTableData_some. }
  split; [apply extractTableData_returns |].
  split; [| split; [| split]].
  - intros Hno. apply (Hnone (has_header_cell node)).
    + intros ds H. now apply extractTableData_body_some in H.
    + intros (thead & _ & _ & Hthead & _). exact (Hno thead Hthead).
  - apply Hnone. intros ds H. now apply extractTableData_body_some in H.
  - apply Hnone. intros ds H. now apply extractTableData_body_some in H.
  - intros ds H. apply extractTableData_some, extractTableData_body_some in H. tauto.
Qed.

Lemma extractTableData_never_throws_witness :
  extractTableData Printer.printFinite headless_table = Normal None.
Proof.
  apply (proj1 (proj2 (extractTableData_never_throws Printer.printFinite headless_table))).
  intros thead (props & items & cprops & Hnode & Hitems & Hin & Hc & Htag).
  injection Hnode as <-. cbn in Hitems. injection Hitems as <-.
  destruct Hin as [<- | []]. injection Hc as <-. discriminate Htag.
Defined.

(** Malformed nodes: the body of the extractor throws, the extractor
    returns no dataset. *)
Example malformed_nodes_degrade :
  forall fts,
    (exists e, extractTableData_body fts JNull = Throw e)
    /\ extractTableData fts JNull = Normal None
    /\ (exists e, extractTableData_body fts (JObj [("children", JStr "rows")]) = Throw e)
    /\ extractTableData fts (JObj [("children", JStr "rows")]) = Normal None
    /\ (exists e, extractTableData_body fts (element "table" [JNull]) = Throw e)
    /\ extractTableData fts (element "table" [JNull]) = Normal None
    /\ (exists e, extractTableData_body fts
                    (element "table"
                       [element "thead"
                          [element "tr"
                             [JObj [("type", JStr "text"); ("tagName", JStr "th");
                                    ("value", JBool true)]]]])
                  = Throw e)
    /\ extractTableData fts (element "table" []) = Normal None.
Proof. intros fts. repeat split; eexists; reflexivity. Qed.

(** * Further properties *)

(** ** Scorer *)

Section ScorerFacts.

Lemma score_sum code :
  let u := toUpperCase code in
  score code
  = (weight (includes u "JOIN") 2 + weight (includes u "GROUP BY") 1
     + weight (includes u "HAVING") 2 + weight (includes u "WITH") 2
     + weight (includes u "UNION") 2
     + weight (includes u "SELECT" && includes u "WHERE") 1)%nat.
Proof.
  cbv zeta. unfold score.
  destruct (includes (toUpperCase code) "JOIN"),
           (includes (toUpperCase code) "GROUP BY"),
           (includes (toUpperCase code) "HAVING"),
           (includes (toUpperCase code) "WITH"),
           (includes (toUpperCase code) "UNION"),
           (includes (toUpperCase code) "SELECT" && includes (toUpperCase code) "WHERE");
    reflexivity.
Qed.

Lemma weight_mono (b b' : bool) w : (b = true -> b' = true) -> (weight b w <= weight b' w)%nat.
Proof. destruct b, b'; cbn; intros H; first [lia | discriminate (H eq_refl)]. Qed.

Lemma weight_le b w : (weight b w <= w)%nat.
Proof. destruct b; cbn; lia. Qed.

(** A keyword found in a text is found in every text around it. *)
Lemma includes_around pre code post k :
  includes (toUpperCase code) k = true ->
  includes (toUpperCase (pre ++ code ++ post)) k = true.
Proof.
  unfold toUpperCase. rewrite !map_chars_app, !includes_spec.
  intros (a & b & ->).
  exists (map_chars upper_char pre ++ a), (b ++ map_chars upper_char post).
  now rewrite !append_assoc'.
Qed.

Lemma complexity_rank code :
  tier_rank (complexity code)
  = if (score code <? 3)%nat then 0%nat else if (score code <? 6)%nat then 1%nat else 2%nat.
Proof. unfold complexity. now destruct (score code <? 3)%nat, (score code <? 6)%nat. Qed.

End ScorerFacts.

(** X1.  Text added before or after a query never lowers its score nor its
    tier: every keyword found in the query is found in the longer text. *)
Theorem score_monotone (pre code post : string) :
  (score code <= score (pre ++ code ++ post))%nat
  /\ (tier_rank (complexity code) <= tier_rank (complexity (pre ++ code ++ post)))%nat.
Proof.
  assert (H : (score code <= score (pre ++ code ++ post))%nat).
  { rewrite !score_sum. cbv zeta.
    repeat apply Nat.add_le_mono; apply weight_mono; try apply includes_around.
    rewrite !andb_true_iff. intros [H1 H2]. split; now apply includes_around. }
  split; [exact H |]. rewrite !complexity_rank.
  destruct (score code <? 3)%nat eqn:A, (score code <? 6)%nat eqn:B,
           (score (pre ++ code ++ post) <? 3)%nat eqn:C,
           (score (pre ++ code ++ post) <? 6)%nat eqn:D; try lia;
    rewrite ?Nat.ltb_lt, ?Nat.ltb_ge in *; lia.
Qed.

(** X2.  The score ignores letter case and lies between 0 and 10; two
    texts equal up to case get the same score and the same tier. *)
Theorem score_ignores_case_bounded (code other : string) :
  (score code <= 10)%nat
  /\ (ci_equal code other = true ->
      score code = score other /\ complexity code = complexity other).
Proof.
  split.
  - rewrite score_sum. cbv zeta.
    pose proof (weight_le (includes (toUpperCase code) "JOIN") 2).
    pose proof (weight_le (includes (toUpperCase code) "GROUP BY") 1).
    pose proof (weight_le (includes (toUpperCase code) "HAVING") 2).
    pose proof (weight_le (includes (toUpperCase code) "WITH") 2).
    pose proof (weight_le (includes (toUpperCase code) "UNION") 2).
    pose proof (weight_le (includes (toUpperCase code) "SELECT"
                           && includes (toUpperCase code) "WHERE") 1).
    lia.
  - intros H. apply ci_equal_upper in H.
    assert (E : score code = score other) by (unfold score; now rewrite H).
    split; [exact E |]. unfold complexity. now rewrite E.
Qed.

Lemma score_ignores_case_bounded_witness :
  score "select * from t where x in (select y from u)"
  = score "SELECT * FROM t WHERE x IN (SELECT y FROM u)"
  /\ complexity "select * from t where x in (select y from u)"
     = complexity "SELECT * FROM t WHERE x IN (SELECT y FROM u)".
Proof.
  apply (proj2 (score_ignores_case_bounded
                  "select * from t where x in (select y from u)"
                  "SELECT * FROM t WHERE x IN (SELECT y FROM u)")).
  reflexivity.
Defined.

(** ** Gate *)

Section GateFacts.

Lemma trimEnd_cons_nonspace c x :
  is_space c = false -> trimEnd (String c x) = String c (trimEnd x).
Proof. intros H. cbn [trimEnd]. rewrite H. now destruct (trimEnd x). Qed.

Lemma trimStart_app s t : trimStart s <> "" -> trimStart (s ++ t) = trimStart s ++ t.
Proof.
  induction s as [| c s IH]; cbn [trimStart append]; [contradiction |].
  destruct (is_space c); [exact IH | reflexivity].
Qed.

Lemma upper_letter_not_space c : is_upper (upper_char c) = true -> is_space c = false.
Proof.
  destruct c as [[] [] [] [] [] [] [] []]; intros H; try reflexivity; discriminate H.
Qed.

(** A prefix of upper-case letters found in the trimmed text stays when
    the text goes on. *)
Lemma startsWith_trimEnd_app k : forall x y,
  all_chars is_upper k = true ->
  startsWith (toUpperCase (trimEnd x)) k = true ->
  startsWith (toUpperCase (trimEnd (x ++ y))) k = true.
Proof.
  induction k as [| a k IH]; intros x y Hk H; [reflexivity |].
  rewrite all_chars_cons, andb_true_iff in Hk. destruct Hk as [Ha Hk].
  destruct x as [| c x]; [discriminate H |].
  assert (Hc : is_space c = false).
  { destruct (is_space c) eqn:E; [| reflexivity].
    cbn [trimEnd] in H. rewrite E in H.
    destruct (trimEnd x) as [| c' x']; [discriminate H |].
    cbn [toUpperCase map_chars startsWith] in H.
    apply andb_true_iff in H as [H _]. apply Ascii.eqb_eq in H.
    rewrite H in Ha. apply upper_letter_not_space in Ha. congruence. }
  cbn [append]. rewrite trimEnd_cons_nonspace in * by exact Hc.
  cbn [toUpperCase map_chars startsWith] in *.
  apply andb_true_iff in H as [H1 H2]. rewrite H1. cbn [andb].
  now apply IH.
Qed.

Lemma readOnlyPrefix_app s t :
  readOnlyPrefix (trim s) = true -> readOnlyPrefix (trim (s ++ t)) = true.
Proof.
  unfold readOnlyPrefix, trim. intros H.
  assert (Hne : trimStart s <> "").
  { intros E. rewrite E in H. discriminate H. }
  rewrite (trimStart_app s t Hne).
  apply orb_true_iff in H. apply orb_true_iff.
  destruct H as [H | H]; [left | right]; now apply startsWith_trimEnd_app.
Qed.

End GateFacts.

(** X3.  The gate looks at the beginning only: whatever follows a text
    that is eligible for automatic execution, the whole is eligible.  A
    statement that changes data, appended after a SELECT, passes. *)
Theorem eligible_whatever_follows (s t : string) :
  eligible s = true -> eligible (s ++ t) = true.
Proof.
  unfold eligible. rewrite !andb_true_iff, !negb_true_iff. intros [Hne H]. split.
  - destruct s; [discriminate Hne | reflexivity].
  - now apply readOnlyPrefix_app.
Qed.

Lemma eligible_whatever_follows_witness :
  eligible ("SELECT 1" ++ "; DROP TABLE x") = true.
Proof. apply (eligible_whatever_follows "SELECT 1" "; DROP TABLE x"). reflexivity. Defined.

(** ** The expression of the effect *)

Section FenceMatch.

Lemma matchSqlFence_unfold s :
  matchSqlFence s =
    match (match stripPrefix fence_open s with
           | Some rest => untilFenceClose rest
           | None => None
           end) with
    | Some group => Some group
    | None => match s with
              | EmptyString => None
              | String _ r => matchSqlFence r
              end
    end.
Proof. destruct s; reflexivity. Qed.

Lemma stripPrefix_Some p : forall s r, stripPrefix p s = Some r -> s = p ++ r.
Proof.
  induction p as [| a p IH]; intros s r; cbn [stripPrefix append].
  - now intros [= ->].
  - destruct s as [| b s]; [discriminate |].
    destruct (Ascii.eqb a b) eqn:E; [| discriminate].
    apply Ascii.eqb_eq in E. subst b. intros H. now rewrite (IH s r H).
Qed.

Lemma startsWith_app s x p : startsWith s p = true -> startsWith (s ++ x) p = true.
Proof.
  rewrite !startsWith_spec. intros [r ->]. exists (r ++ x). now rewrite append_assoc'.
Qed.

(** The lazy group ends at the first closing fence: it is followed by one
    and holds none. *)
Lemma untilFenceClose_sound s : forall group,
  untilFenceClose s = Some group ->
  (exists post, s = group ++ fence_close ++ post) /\ includes group fence_close = false.
Proof.
  induction s as [| c r IH]; intros group.
  - cbn. discriminate.
  - rewrite untilFenceClose_cons. fold fence_close.
    destruct (startsWith (String c r) fence_close) eqn:E.
    + intros [= <-]. apply startsWith_spec in E as [post E]. split; [| reflexivity].
      exists post. exact E.
    + destruct (untilFenceClose r) as [g |]; [| discriminate].
      cbn [option_map]. intros [= <-].
      destruct (IH g eq_refl) as [[post ->] Hg]. split; [now exists post |].
      cbn [includes]. rewrite Hg, orb_false_r.
      destruct (startsWith (String c g) fence_close) eqn:F; [| reflexivity].
      apply (startsWith_app _ (fence_close ++ post)) in F. cbn [append] in F. congruence.
Qed.

Lemma untilFenceClose_complete a b : untilFenceClose (a ++ fence_close ++ b) <> None.
Proof.
  induction a as [| c a IH]; [discriminate |].
  cbn [append]. rewrite untilFenceClose_cons.
  destruct (startsWith _ _); [discriminate |].
  destruct (untilFenceClose (a ++ fence_close ++ b)); [discriminate | contradiction].
Qed.

End FenceMatch.

(** X4.  The expression of the auto-run effect finds a group exactly when
    the content holds an opening [```sql] line followed somewhere by a line
    feed and three backticks; the group stands between the two and holds no
    closing fence itself. *)
Theorem matchSqlFence_sound_complete (s : string) :
  (forall group, matchSqlFence s = Some group ->
     (exists pre post, s = pre ++ fence_open ++ group ++ fence_close ++ post)
     /\ includes group fence_close = false)
  /\ (matchSqlFence s = None ->
      forall pre group post, s <> pre ++ fence_open ++ group ++ fence_close ++ post).
Proof.
  split.
  - induction s as [| c r IH]; intros group; rewrite matchSqlFence_unfold.
    + cbn. discriminate.
    + destruct (stripPrefix fence_open (String c r)) as [rest |] eqn:E.
      * destruct (untilFenceClose rest) as [g |] eqn:U.
        -- intros [= <-]. apply stripPrefix_Some in E.
           destruct (untilFenceClose_sound _ _ U) as [[post ->] Hg].
           split; [| exact Hg]. exists "", post. exact E.
        -- intros H. destruct (IH _ H) as [(pre & post & ->) Hg].
           split; [| exact Hg]. now exists (String c pre), post.
      * intros H. destruct (IH _ H) as [(pre & post & ->) Hg].
        split; [| exact Hg]. now exists (String c pre), post.
  - intros Hnone pre group post ->. revert Hnone.
    induction pre as [| c pre IH]; rewrite matchSqlFence_unfold.
    + cbn [append]. rewrite stripPrefix_app.
      pose proof (untilFenceClose_complete group post) as H.
      destruct (untilFenceClose _); [discriminate | contradiction].
    + cbn [append].
      destruct (match stripPrefix fence_open _ with Some _ => _ | None => _ end);
        [discriminate | exact IH].
Qed.

Lemma matchSqlFence_sound_complete_witness :
  (exists pre post,
     "Try:" ++ fence_open ++ "SELECT 1" ++ fence_close ++ " done"
     = pre ++ fence_open ++ "SELECT 1" ++ fence_close ++ post)
  /\ includes "SELECT 1" fence_close = false.
Proof.
  apply (proj1 (matchSqlFence_sound_complete
                  ("Try:" ++ fence_open ++ "SELECT 1" ++ fence_close ++ " done"))).
  reflexivity.
Defined.

(** ** Coordinator: when the effect fires, and what is shown *)

Section CoordinatorFacts.

Variable message : Message.

Lemma run_snoc events e :
  run message (events ++ [e]) = step message (run message events) e.
Proof. unfold run. now rewrite fold_left_app. Qed.

Lemma effectWithContext_snoc events e :
  effectWithContext (events ++ [e])
  = effectWithContext events
    || match e with EffectRuns (Some _) => true | _ => false end.
Proof. unfold effectWithContext. rewrite existsb_app. cbn. now rewrite orb_false_r. Qed.

(** The one-shot flag is set exactly when the message has something to
    run and an effect ran with a connection context. *)
Lemma hasAutoRun_run events :
  hasAutoRun (run message events)
  = match autoRunTarget message with
    | Some _ => effectWithContext events
    | None => false
    end.
Proof.
  induction events as [| e events IH] using rev_ind.
  - cbn. now destruct (autoRunTarget message).
  - rewrite run_snoc, effectWithContext_snoc.
    destruct e as [ctx | ctx code | n o]; cbn [step].
    + unfold autoRunEffect, autoRunTarget, eligible in *.
      destruct ctx as [ctx |].
      * destruct (hasAutoRun (run message events)) eqn:F.
        -- rewrite F, IH. destruct (role message); [reflexivity |].
           destruct (matchSqlFence (content message)) as [g |]; [| reflexivity].
           destruct (negb (String.eqb g "") && readOnlyPrefix (trim g)); [| reflexivity].
           now rewrite <- IH.
        -- destruct (role message); [exact F |].
           destruct (matchSqlFence (content message)) as [g |]; [| exact F].
           destruct (negb (String.eqb g "")); [| exact F].
           cbn [andb] in *. destruct (readOnlyPrefix (trim g)); [| exact F].
           cbn [handleRunQuery markAutoRun hasAutoRun]. now rewrite orb_true_r.
      * rewrite orb_false_r. exact IH.
    + rewrite orb_false_r. destruct ctx; exact IH.
    + rewrite orb_false_r. unfold resumeRunQuery.
      destruct (existsb _ _); exact IH.
Qed.

Lemma filter_remove_length (n : nat) l :
  NoDup l -> In n l ->
  (List.length (filter (fun k => negb (Nat.eqb n k)) l) + 1 = List.length l)%nat.
Proof.
  induction 1 as [| x l Hx Hnd IH]; intros Hin; [destruct Hin |].
  cbn [filter List.length]. destruct (Nat.eqb n x) eqn:E; cbn [negb].
  - apply Nat.eqb_eq in E. subst x.
    assert (Hall : filter (fun k => negb (Nat.eqb n k)) l = l).
    { apply forallb_filter_id. apply forallb_forall. intros k Hk.
      apply negb_true_iff, Nat.eqb_neq. intros ->. contradiction. }
    rewrite Hall. lia.
  - apply Nat.eqb_neq in E. destruct Hin as [-> | Hin]; [contradiction |].
    cbn [List.length]. specialize (IH Hin). lia.
Qed.

Lemma issue_area_inv ctx sql st st0 :
  pending st0 = pending st -> calls st0 = calls st -> settled st0 = settled st ->
  ids_inv st -> area_inv st -> area_inv (handleRunQuery (Some ctx) sql st0).
Proof.
  intros Ep Ec Es (_ & _ & Hp & _) (_ & Hnd & Hlen).
  unfold area_inv. cbn [handleRunQuery isExecuting executionResult calls pending settled].
  rewrite Ep, Ec, Es. split; [| split].
  - split; [intros _ | reflexivity]. split; [reflexivity |]. now destruct (calls st).
  - apply NoDup_app; [exact Hnd | apply NoDup_cons; [intros [] | apply NoDup_nil] |].
    intros k Hk [E | []]. subst k.
    rewrite Forall_forall in Hp. specialize (Hp _ Hk). cbv beta in Hp. lia.
  - rewrite !length_app. cbn [List.length]. lia.
Qed.

Lemma step_area_inv st e :
  ids_inv st /\ area_inv st -> ids_inv (step message st e) /\ area_inv (step message st e).
Proof.
  intros [Hids Harea]. split; [now apply step_ids_inv |].
  destruct e as [ctx | ctx code | n o]; cbn [step].
  - destruct (autoRunEffect_cases message ctx st)
      as [-> | (c & group & _ & _ & _ & _ & _ & ->)]; [exact Harea |].
    now apply (issue_area_inv c (trim group) st).
  - destruct ctx as [ctx |]; [| exact Harea]. now apply (issue_area_inv ctx code st).
  - unfold resumeRunQuery. destruct (existsb (Nat.eqb n) (pending st)) eqn:E; [| exact Harea].
    apply existsb_exists in E as (k & Hk & Ek). apply Nat.eqb_eq in Ek. subst k.
    destruct Harea as (_ & Hnd & Hlen).
    unfold area_inv. cbn [isExecuting executionResult calls pending settled].
    split; [| split].
    + split; [discriminate | intros [H _]; discriminate H].
    + now apply NoDup_filter.
    + rewrite length_app. cbn [List.length].
      pose proof (filter_remove_length n (pending st) Hnd Hk). lia.
Qed.

Lemma run_area_inv events : area_inv (run message events).
Proof.
  apply (run_invariant message (fun st => ids_inv st /\ area_inv st)).
  - split.
    + split; [apply NoDup_nil |]. split; [intros k [] |]. split; apply Forall_nil.
    + split; [| split; [apply NoDup_nil | reflexivity]].
      split; [discriminate | intros [_ H]; now contradiction H].
  - intros st e. apply step_area_inv.
Qed.

End CoordinatorFacts.

(** X5.  The effect runs a query exactly when the message is the
    assistant's, the first match of the expression in its content passes
    the gate, and the effect has run at least once with a connection
    context; it then runs that one text, trimmed, and nothing else,
    whatever else happens. *)
Theorem auto_run_exactly_when (message : Message) (events : list Event) :
  autoRunTexts (run message events)
  = match autoRunTarget message with
    | Some sql => if effectWithContext events then [sql] else []
    | None => []
    end.
Proof.
  pose proof (hasAutoRun_run message events) as Hflag.
  rewrite autoRunTexts_textsOf.
  destruct (run_auto_inv message events)
    as [_ [[Hf Hnone] | (Hf & Hr & group & n & _ & Hm & He & Ht)]].
  - rewrite Hnone. cbn. rewrite Hf in Hflag.
    destruct (autoRunTarget message); [now rewrite <- Hflag | reflexivity].
  - rewrite Ht. rewrite Hf in Hflag. unfold autoRunTarget in *.
    rewrite Hr, Hm, He in *. now rewrite <- Hflag.
Qed.

(** X6.  Under an SQL block nothing is shown before the first run; once a
    run was issued exactly one of the spinner, the error panel and the
    result visualizer is chosen, and every call issued is either awaited or
    has ended. *)
Theorem result_area_exclusive (message : Message) (events : list Event) :
  let st := run message events in
  let area := resultArea st in
  (calls st = [] ->
   showsSpinner area = false /\ showsError area = None /\ showsResults area = None)
  /\ (calls st <> [] ->
      (showsSpinner area = true /\ showsError area = None /\ showsResults area = None)
      \/ (showsSpinner area = false /\ showsError area <> None /\ showsResults area = None)
      \/ (showsSpinner area = false /\ showsError area = None /\ showsResults area <> None))
  /\ (List.length (pending st) + List.length (settled st) = List.length (calls st))%nat.
Proof.
  intros st area.
  destruct (run_area_inv message events) as ([Hexec1 Hexec2] & _ & Hlen). fold st in Hexec1, Hexec2, Hlen.
  unfold area, resultArea. cbn [showsSpinner showsError showsResults].
  split; [| split; [| exact Hlen]].
  - intros Hcalls.
    destruct (executionResult st) as [r |] eqn:Hr.
    + pose proof (run_display_inv message events) as Hd. fold st in Hd.
      unfold display_inv in Hd. rewrite Hr in Hd. destruct Hd as (log & n & Hlog).
      rewrite Hcalls, Hlog, length_app in Hlen. cbn in Hlen. lia.
    + destruct (isExecuting st); [| auto].
      destruct (Hexec1 eq_refl) as [_ H]. contradiction.
  - intros Hcalls. destruct (executionResult st) as [r |] eqn:Hr.
    + assert (Hs : isExecuting st = false).
      { destruct (isExecuting st); [| reflexivity]. destruct (Hexec1 eq_refl). discriminate. }
      rewrite Hs. destruct (errorOf r); [right; left | right; right]; repeat split; discriminate.
    + left. rewrite (Hexec2 (conj eq_refl Hcalls)). auto.
Qed.

Lemma result_area_exclusive_witness :
  let st := run (assistant_message two_selects)
                [RunClicked (Some sample_context) "SELECT 1";
                 CallEnds 0 (Fulfilled (executeQuery (FetchThrows "TypeError: Failed to fetch")))] in
  let area := resultArea st in
  (showsSpinner area = true /\ showsError area = None /\ showsResults area = None)
  \/ (showsSpinner area = false /\ showsError area <> None /\ showsResults area = None)
  \/ (showsSpinner area = false /\ showsError area = None /\ showsResults area <> None).
Proof.
  apply (proj1 (proj2 (result_area_exclusive (assistant_message two_selects)
                [RunClicked (Some sample_context) "SELECT 1";
                 CallEnds 0 (Fulfilled (executeQuery (FetchThrows "TypeError: Failed to fetch")))]))).
  discriminate.
Defined.

Lemma executed_result_cases (o : FetchOutcome) :
  (exists body cols rws,
      o = JsonBody body /\ success body = true
      /\ columns body = Some cols /\ rows body = Some rws
      /\ resultOf (Fulfilled (executeQuery o))
         = {| result_headers := cols; result_data := rws; result_error := None |})
  \/ (exists e,
        e <> ""
        /\ resultOf (Fulfilled (executeQuery o))
           = {| result_headers := []; result_data := []; result_error := Some e |}
        /\ forall err, o = FetchThrows err -> e = "Query execution failed: " ++ err).
Proof.
  assert (Hmsg : forall e : option string,
             match e with
             | Some e => if String.eqb e "" then "Unknown error occurred" else e
             | None => "Unknown error occurred"
             end <> "").
  { intros [e |]; [| discriminate]. destruct (String.eqb e "") eqn:E; [discriminate |].
    now apply String.eqb_neq. }
  destruct o as [err | [ok cols rws e]].
  - right. exists ("Query execution failed: " ++ err).
    split; [discriminate |]. split; [reflexivity |]. now intros err' [= ->].
  - destruct ok, cols as [cols |], rws as [rws |];
      try (right; eexists; split; [apply (Hmsg e) |]; split; [reflexivity | discriminate]).
    left. exists {| success := true; columns := Some cols; rows := Some rws; error := e |},
            cols, rws.
    repeat split.
Qed.

(** X7.  Whatever happens to the request, the stored result holds either
    rows or a message that is not empty, never both: rows exactly when the
    body reports success with columns and rows; a request that throws is
    reported as [Query execution failed:] followed by the error. *)
Theorem query_outcome_is_reported (o : FetchOutcome) :
  let r := resultOf (Fulfilled (executeQuery o)) in
  (result_error r = None <->
   exists body cols rws, o = JsonBody body /\ success body = true
                         /\ columns body = Some cols /\ rows body = Some rws
                         /\ result_headers r = cols /\ result_data r = rws)
  /\ (forall e, result_error r = Some e ->
        e <> "" /\ errorOf r = Some e /\ result_headers r = [] /\ result_data r = [])
  /\ (forall err, o = FetchThrows err ->
        result_error r = Some ("Query execution failed: " ++ err)).
Proof.
  intros r. unfold r.
  destruct (executed_result_cases o)
    as [(body & cols & rws & Ho & Hs & Hc & Hw & Hr) | (e & Hne & Hr & Herr)];
    rewrite Hr; cbn [result_error result_headers result_data].
  - split; [| split].
    + split; [intros _ | reflexivity]. now exists body, cols, rws.
    + discriminate.
    + intros err ->. discriminate Ho.
  - split; [| split].
    + split; [discriminate |].
      intros (body & cols & rws & -> & Hs & Hc & Hw & _).
      cbn [executeQuery resultOf] in Hr. rewrite Hs, Hc, Hw in Hr. discriminate Hr.
    + intros e' [= <-]. split; [exact Hne |]. split; [| auto].
      unfold errorOf. cbn. apply String.eqb_neq in Hne. now rewrite Hne.
    + intros err Ho. now rewrite (Herr err Ho).
Qed.

(** ** Extractor on well-formed trees *)

Section WellFormedTrees.

Variable FiniteToString : Q -> string.

Lemma Hast_ind_all (P : Hast -> Prop) :
  (forall v, P (HText v)) ->
  (forall tag children, Forall P children -> P (HElement tag children)) ->
  forall t, P t.
Proof.
  intros Htext Helem. fix IH 1. intros [v | tag children]; [apply Htext |].
  apply Helem. induction children as [| c children IHc]; constructor; [apply IH | exact IHc].
Qed.

Lemma getText_text v : getText FiniteToString (text v) = JStr v.
Proof.
  cbn. unfold or_else. cbn [truthy]. destruct (String.eqb v "") eqn:E; [| reflexivity].
  apply String.eqb_eq in E. now subst.
Qed.

Lemma getText_element tag items :
  getText FiniteToString (element tag items)
  = JStr (joinValues FiniteToString "" (map (getText FiniteToString) items)).
Proof. reflexivity. Qed.

Lemma joinValues_strings sep (l : list string) :
  joinValues FiniteToString sep (map JStr l) = join sep l.
Proof. unfold joinValues. rewrite map_map. cbn. now rewrite map_id. Qed.

Lemma getText_toNode t : getText FiniteToString (toNode t) = JStr (textContent t).
Proof.
  induction t as [v | tag children IH] using Hast_ind_all.
  - apply getText_text.
  - cbn [toNode textContent]. rewrite getText_element. f_equal.
    rewrite <- joinValues_strings. f_equal. rewrite !map_map.
    apply map_ext_Forall. exact IH.
Qed.

Lemma hasTag_toNode tag t : hasTag tag (toNode t) = Normal (isTag tag t).
Proof. destruct t; reflexivity. Qed.

Lemma truthy_toNode t : truthy (toNode t) = true.
Proof. destruct t; reflexivity. Qed.

Lemma children_toNode t :
  isTag "thead" t || isTag "tbody" t || isTag "tr" t = true ->
  getMember (toNode t) "children" = Normal (JArr (map toNode (childrenOf t))).
Proof. destruct t; [discriminate | reflexivity]. Qed.

Lemma findTag_toNode tag kids :
  findTag tag (map toNode kids)
  = Normal (match find (isTag tag) kids with
            | Some k => toNode k
            | None => JUndefined
            end).
Proof.
  induction kids as [| k kids IH]; [reflexivity |].
  cbn [map findTag find]. rewrite hasTag_toNode. cbn [bind].
  destruct (isTag tag k); [reflexivity | exact IH].
Qed.

Lemma filterTag_toNode tag kids :
  filterTag tag (map toNode kids) = Normal (map toNode (filter (isTag tag) kids)).
Proof.
  induction kids as [| k kids IH]; [reflexivity |].
  cbn [map filterTag filter]. rewrite hasTag_toNode, IH. cbn [bind].
  now destruct (isTag tag k).
Qed.

Lemma find_isTag tag kids k : find (isTag tag) kids = Some k -> isTag tag k = true.
Proof. intros H. now apply find_some in H. Qed.

Lemma mapM_trim_toNode cells :
  mapM (fun th => callTrim (getText FiniteToString th)) (map toNode cells)
  = Normal (map cellText cells).
Proof.
  induction cells as [| c cells IH]; [reflexivity |].
  cbn [map mapM]. rewrite getText_toNode, IH. reflexivity.
Qed.

(** Cells beyond the last header are dropped. *)
Lemma fillRow_beyond hs cells : forall i acc,
  (List.length hs <= i)%nat -> fillRow FiniteToString hs cells i acc = Normal acc.
Proof.
  induction cells as [| c cells IH]; intros i acc Hi; [reflexivity |].
  cbn [fillRow]. apply nth_error_None in Hi as Hn. rewrite Hn. apply IH. lia.
Qed.

Lemma fillRow_toNode hs cells : forall i acc,
  fillRow FiniteToString hs (map toNode cells) i acc
  = Normal (fold_left (fun o hc => setProp (fst hc) (coerceCell (snd hc)) o)
                      (combine (skipn i hs) (map cellText cells)) acc).
Proof.
  induction cells as [| c cells IH]; intros i acc.
  - cbn. now rewrite combine_nil.
  - cbn [map fillRow]. destruct (nth_error hs i) as [h |] eqn:E.
    + rewrite getText_toNode. cbn [callTrim bind]. rewrite IH.
      assert (Hs : skipn i hs = h :: skipn (S i) hs).
      { clear -E. revert hs E. induction i as [| i IHi]; intros [| x hs] E; try discriminate.
        - now injection E as ->.
        - cbn [nth_error] in E. cbn [skipn]. rewrite (IHi hs E). reflexivity. }
      rewrite Hs. reflexivity.
    + apply nth_error_None in E. rewrite skipn_all2 by exact E. cbn [combine fold_left].
      rewrite <- (map_map toNode (fun x => x)), map_id. apply fillRow_beyond. lia.
Qed.

Lemma mapM_rows_toNode hs rows :
  forallb (isTag "tr") rows = true ->
  mapM (fun row =>
          (rowChildren <- getMember row "children" ;;
           cells <- callFilter rowChildren "td" ;;
           fillRow FiniteToString hs cells 0 [])%js) (map toNode rows)
  = Normal (map (fun row => recordOf hs (map cellText (filter (isTag "td") (childrenOf row))))
                rows).
Proof.
  induction rows as [| r rows IH]; [reflexivity |].
  cbn [forallb]. rewrite andb_true_iff. intros [Hr Hrows].
  cbn [map mapM]. rewrite children_toNode by (rewrite Hr; now rewrite orb_true_r).
  cbn [bind callFilter]. rewrite filterTag_toNode. cbn [bind].
  rewrite fillRow_toNode, (IH Hrows). reflexivity.
Qed.

Lemma filter_all_tag tag kids : forallb (isTag tag) (filter (isTag tag) kids) = true.
Proof.
  apply forallb_forall. intros k Hk. now apply filter_In in Hk.
Qed.

End WellFormedTrees.

(** X8.  On a text leaf or an element the function [getText] returns the
    texts of all leaves below it, depth first and left to right, joined
    without separator. *)
Theorem getText_is_text_content (FiniteToString : Q -> string) (t : Hast) :
  getText FiniteToString (toNode t) = JStr (textContent t).
Proof. apply getText_toNode. Qed.

(** X9.  On every well-formed tree the extractor takes no exception path
    and returns what the tree shows: the headers are the trimmed texts of
    the header cells of the first row of the first header group, each row
    of the first body group gives one record, and there is no dataset when
    there is no header group, no header row, no header cell or no data
    row. *)
Theorem extractTableData_on_trees (FiniteToString : Q -> string) (t : Hast) :
  extractTableData_body FiniteToString (toNode t) = Normal (datasetOf t)
  /\ extractTableData FiniteToString (toNode t) = Normal (datasetOf t).
Proof.
  assert (H : extractTableData_body FiniteToString (toNode t) = Normal (datasetOf t)).
  { unfold extractTableData_body, datasetOf.
    assert (Hkids : exists kids,
               childrenOf t = kids
               /\ (nodeChildren <- getMember (toNode t) "children" ;;
                   Normal (or_else nodeChildren (JArr [])))%js
                  = Normal (JArr (map toNode kids))).
    { destruct t as [v | tag kids]; [now exists [] | now exists kids]. }
    destruct Hkids as (kids & -> & Hkids).
    destruct (getMember (toNode t) "children") as [nodeChildren | e]; [| discriminate Hkids].
    cbn [bind] in *. injection Hkids as ->.
    cbn [callFind]. rewrite !findTag_toNode. cbn [bind].
    destruct (find (isTag "thead") kids) as [thead |] eqn:Ethead; [| reflexivity].
    rewrite truthy_toNode. cbn [negb].
    apply find_isTag in Ethead.
    rewrite children_toNode by now rewrite Ethead.
    cbn [bind callFind]. rewrite findTag_toNode.
    destruct (find (isTag "tr") (childrenOf thead)) as [headerRow |] eqn:Erow; [| reflexivity].
    cbn [bind]. rewrite truthy_toNode. cbn [negb].
    apply find_isTag in Erow.
    rewrite children_toNode by (rewrite Erow; now rewrite orb_true_r).
    cbn [bind callFilter]. rewrite filterTag_toNode. cbn [bind].
    rewrite mapM_trim_toNode. cbn [bind].
    destruct (map cellText (filter (isTag "th") (childrenOf headerRow))) as [| h hs] eqn:Eh;
      [reflexivity |].
    cbn [List.length Nat.eqb].
    destruct (find (isTag "tbody") kids) as [tbody |] eqn:Etbody.
    - rewrite truthy_toNode. apply find_isTag in Etbody.
      rewrite children_toNode by (rewrite Etbody; now rewrite orb_true_r).
      cbn [bind callFilter]. rewrite filterTag_toNode. cbn [bind].
      rewrite mapM_rows_toNode by apply filter_all_tag. cbn [bind].
      now destruct (map _ (filter (isTag "tr") (childrenOf tbody))).
    - reflexivity. }
  split; [exact H |]. unfold extractTableData. now rewrite H.
Qed.

Section Records.







End Records.



(** ** Data visualizer: axes, palette and views *)

Section AxesFacts.

Variable FiniteToString : Q -> string.



End AxesFacts.



(** X12.  Every bar series and every pie slice gets a colour of the
    palette, whatever its index; the colours repeat with period seven, and
    within seven consecutive indices no colour is used twice. *)
Theorem palette_cycles (i : nat) :
  (exists c, colorAt i = Some c /\ In c COLORS)
  /\ colorAt (i + 7) = colorAt i
  /\ (forall j, (i < j < i + 7)%nat -> colorAt j <> colorAt i).
Proof.
  assert (Hlen : List.length COLORS = 7%nat) by reflexivity.
  assert (Hnd : NoDup COLORS).
  { unfold COLORS. repeat (apply NoDup_cons; [simpl; intuition discriminate |]). apply NoDup_nil. }
  unfold colorAt. rewrite Hlen. split; [| split].
  - destruct (nth_error COLORS (i mod 7)) as [c |] eqn:E.
    + exists c. split; [reflexivity |]. now apply nth_error_In in E.
    + apply nth_error_None in E. rewrite Hlen in E.
      pose proof (Nat.mod_upper_bound i 7). lia.
  - f_equal. replace (i + 7)%nat with (i + 1 * 7)%nat by lia. apply Nat.Div0.mod_add.
  - intros j Hj Heq.
    rewrite NoDup_nth_error in Hnd.
    assert (Hlt : (j mod 7 < List.length COLORS)%nat).
    { rewrite Hlen. apply Nat.mod_upper_bound. lia. }
    specialize (Hnd _ _ Hlt Heq).
    pose proof (Nat.div_mod_eq i 7). pose proof (Nat.div_mod_eq j 7).
    pose proof (Nat.mod_upper_bound i 7). pose proof (Nat.mod_upper_bound j 7).
    nia.
Qed.

(** X13.  The view shown is always one whose button is offered for the
    data: starting from the table view, no sequence of presses leaves it
    when no column is numeric. *)
Theorem view_is_offered (numeric : list string) (presses : list ViewMode) :
  In (fold_left (press numeric) presses table) (offered numeric)
  /\ (numeric = [] -> fold_left (press numeric) presses table = table).
Proof.
  assert (H : forall vm, In vm (offered numeric) ->
                         In (fold_left (press numeric) presses vm) (offered numeric)).
  { induction presses as [| m presses IH]; intros vm Hvm; [exact Hvm |].
    cbn [fold_left]. apply IH. unfold press.
    destruct (existsb (ViewMode_eqb m) (offered numeric)) eqn:E; [| exact Hvm].
    apply existsb_exists in E as (x & Hx & Ex). now destruct m, x. }
  split.
  - apply H. now left.
  - intros ->. specialize (H table (or_introl eq_refl)). cbn in H. now destruct H.
Qed.

Lemma view_is_offered_witness :
  fold_left (press []) [bar; pie; table; bar] table = table.
Proof. apply (proj2 (view_is_offered [] [bar; pie; table; bar])). reflexivity. Defined.

(** X14.  A column that the first row lacks, or where the first row holds
    null, a boolean, the empty text, an object, NaN or an infinity, is never
    numeric; a column where it holds a finite number is numeric when the
    printed number reads back as one. *)
Theorem numeric_by_kind_of_value (FiniteToString : Q -> string)
        (headers : list string) (first : JsObject) (rest : list JsObject) (h : string) :
  In h headers ->
  let v := lookupProp h first in
  let numeric := numericKeys FiniteToString headers (first :: rest) in
  ((v = JUndefined \/ v = JNull \/ (exists b, v = JBool b) \/ v = JStr ""
    \/ (exists o, v = JObj o) \/ v = JNum NaN \/ (exists s, v = JNum (Infinity s))) ->
   ~ In h numeric)
  /\ (forall q, v = JNum (Finite q) ->
        isNaN (parseFloat (FiniteToString q)) = false -> In h numeric).
Proof.
  intros Hin v numeric.
  assert (Hiff : In h numeric <-> finiteNumeric FiniteToString v = true).
  { unfold numeric. rewrite numericKeys_In. cbn [firstRowValue nth_error]. tauto. }
  split.
  - intros Hv Hnum. apply Hiff in Hnum.
    destruct Hv as [E | [E | [[b E] | [E | [[o E] | [E | [s E]]]]]]];
      rewrite E in Hnum; try discriminate Hnum.
    + destruct b; discriminate Hnum.
    + destruct s; discriminate Hnum.
  - intros q E Hq. apply Hiff. rewrite E.
    unfold finiteNumeric, parseFloatOf, isFinite. cbn. now rewrite Hq.
Qed.

Lemma numeric_by_kind_of_value_witness :
  In "total" (numericKeys Printer.printFinite ["month"; "total"] monthly).
Proof.
  apply (proj2 (numeric_by_kind_of_value Printer.printFinite ["month"; "total"]
                  [("month", JStr "2023-01"); ("total", JNum (Finite 10))]
                  [ [("month", JNum (Finite 2)); ("total", JNum (Finite 20))];
                    [("month", JNum (Finite 3)); ("total", JNum (Finite 30))] ] "total"
                  ltac:(simpl; auto)) 10%Q); reflexivity.
Defined.

(** ** Schema panel *)

Section SchemaFacts.

Import Regex.



Lemma ci_equal_sym a b : ci_equal a b = ci_equal b a.
Proof.
  apply eq_true_iff_eq. rewrite !ci_equal_upper. split; intros H; now symmetry.
Qed.







End SchemaFacts.


Example validateSchema_examples :
  validateSchema "  " = None
  /\ validateSchema ("create" ++ newline ++ "  table t (id int)") = None
  /\ validateSchema "items selected by hand" = None
  /\ validateSchema "CREATETABLE t" = Some schema_warning
  /\ validateSchema "users(id, name)" = Some schema_warning.
Proof. vm_compute. repeat split. Qed.


Section ConnectionFacts.

Import Connection.





End ConnectionFacts.


(** ** Conversation *)

Section AppFacts.

Import App.

Lemma generateSqlAnalysis_nonempty o : generateSqlAnalysis o <> "".
Proof.
  destruct o as [err | detail | [c |]]; cbn; try discriminate.
  destruct (String.eqb c "") eqn:E; [discriminate | now apply String.eqb_neq].
Qed.

Lemma nth_error_snoc {A} (l : list A) x i y :
  nth_error (l ++ [x]) i = Some y ->
  nth_error l i = Some y \/ (i = List.length l /\ y = x).
Proof.
  intros H. destruct (Nat.lt_ge_cases i (List.length l)) as [Hlt | Hge].
  - left. now rewrite nth_error_app1 in H.
  - right. rewrite nth_error_app2 in H by exact Hge.
    destruct (i - List.length l)%nat as [| k] eqn:E.
    + cbn in H. injection H as <-. split; [lia | reflexivity].
    + cbn in H. destruct k; discriminate H.
Qed.

Lemma append_transcript_inv st m :
  transcript_inv st ->
  role m = (if isLoading st then assistant else user) -> content m <> "" ->
  forall inp,
    transcript_inv {| messages := messages st ++ [m]; input := inp;
                      isLoading := negb (isLoading st) |}.
Proof.
  intros [Hall Hload] Hrole Hcontent inp. split; cbn [messages isLoading].
  - intros i x Hx. apply nth_error_snoc in Hx as [Hx | [-> ->]]; [now apply Hall |].
    rewrite <- Hload. auto.
  - rewrite length_app, Hload. cbn [List.length].
    rewrite Nat.add_1_r, Nat.even_succ, <- Nat.negb_even. reflexivity.
Qed.

Lemma step_transcript_inv st e : transcript_inv st -> transcript_inv (step st e).
Proof.
  intros Hinv. destruct e as [value | now | o now]; cbn [step].
  - destruct (isLoading st) eqn:L; [exact Hinv |].
    destruct Hinv as [Hall Hload]. split; cbn [messages isLoading]; [exact Hall |].
    now rewrite <- Hload.
  - unfold handleSubmit.
    destruct (String.eqb (trim (input st)) "") eqn:B; cbn [orb]; [exact Hinv |].
    destruct (isLoading st) eqn:L; [exact Hinv |].
    change true with (negb false). rewrite <- L.
    apply append_transcript_inv; [exact Hinv | now rewrite L |].
    cbn. intros E. rewrite E in B. discriminate B.
  - destruct (isLoading st) eqn:L; [| exact Hinv]. unfold resumeSubmit.
    change false with (negb true). rewrite <- L.
    apply append_transcript_inv; [exact Hinv | now rewrite L |].
    apply generateSqlAnalysis_nonempty.
Qed.

Lemma step_appends st e : exists extra, messages (step st e) = (messages st ++ extra)%list.
Proof.
  destruct e as [value | now | o now]; cbn [step].
  - exists []. rewrite app_nil_r. now destruct (isLoading st).
  - unfold handleSubmit. destruct (_ || _); [exists []; now rewrite app_nil_r |].
    eexists. reflexivity.
  - destruct (isLoading st); [eexists; reflexivity | exists []; now rewrite app_nil_r].
Qed.

Lemma fold_appends events : forall st,
  exists extra, messages (fold_left step events st) = (messages st ++ extra)%list.
Proof.
  induction events as [| e events IH]; intros st.
  - exists []. now rewrite app_nil_r.
  - cbn [fold_left]. destruct (IH (step st e)) as [x Hx].
    destruct (step_appends st e) as [y Hy].
    exists (y ++ x)%list. now rewrite Hx, Hy, app_assoc.
Qed.

Lemma fold_transcript_inv events : forall st,
  transcript_inv st -> transcript_inv (fold_left step events st).
Proof.
  induction events as [| e events IH]; intros st Hst; [exact Hst |].
  cbn [fold_left]. apply IH. now apply step_transcript_inv.
Qed.

Lemma initial_transcript_inv : transcript_inv initial.
Proof.
  split; [| reflexivity]. intros [| [| i]] m H; try discriminate H.
  injection H as <-. split; [reflexivity | discriminate].
Qed.

End AppFacts.

(** X17.  Whatever is typed, submitted and answered, the transcript
    starts with the welcome message and then alternates between the user
    and the assistant; no message is empty; a reply is awaited exactly when
    the last message is the user's, and while it is awaited a submission
    adds nothing; the transcript only grows at its end. *)
Theorem transcript_alternates (events more : list App.Event) :
  let st := App.run events in
  (forall i m, nth_error (App.messages st) i = Some m ->
     role m = (if Nat.even i then assistant else user) /\ content m <> "")
  /\ nth_error (App.messages st) 0 = Some App.welcome
  /\ App.isLoading st = Nat.even (List.length (App.messages st))
  /\ (App.isLoading st = true -> forall now, App.handleSubmit now st = st)
  /\ (exists extra, App.messages (App.run (events ++ more))
                    = (App.messages st ++ extra)%list).
Proof.
  intros st.
  destruct (fold_transcript_inv events App.initial initial_transcript_inv) as [Hall Hload].
  fold (App.run events) in Hall, Hload. fold st in Hall, Hload.
  split; [exact Hall |]. split; [| split; [exact Hload | split]].
  - destruct (fold_appends events App.initial) as [extra H].
    fold (App.run events) in H. fold st in H. now rewrite H.
  - intros L now. unfold App.handleSubmit. rewrite L. now rewrite orb_true_r.
  - unfold st, App.run. rewrite fold_left_app. apply fold_appends.
Qed.

Lemma transcript_alternates_witness :
  App.handleSubmit 1700000000500
    (App.run [App.InputChanged "total sales per month?"; App.Submitted 1700000000000])
  = App.run [App.InputChanged "total sales per month?"; App.Submitted 1700000000000].
Proof.
  apply (proj1 (proj2 (proj2 (proj2
           (transcript_alternates
              [App.InputChanged "total sales per month?"; App.Submitted 1700000000000] []))))).
  reflexivity.
Defined.

(** X18.  The reply of the assistant is never empty: it is the content of
    the body when there is one, a fixed apology when the body has none,
    and on any failure a message that starts with the notice that the
    backend could not be reached and ends with the error. *)
Theorem reply_is_never_empty (o : App.ChatFetch) :
  App.generateSqlAnalysis o <> ""
  /\ (forall c, o = App.ChatOk (Some c) -> c <> "" -> App.generateSqlAnalysis o = c)
  /\ (o = App.ChatOk None \/ o = App.ChatOk (Some "") ->
      App.generateSqlAnalysis o
      = "I could not generate a response. Please check your inputs.")
  /\ ((forall c, o <> App.ChatOk c) ->
      exists error,
        App.generateSqlAnalysis o
        = "Error connecting to backend API. Please ensure the server is running at http://localhost:8000. Error: "
          ++ error
        /\ matchSqlFence (App.generateSqlAnalysis o) = matchSqlFence error).
Proof.
  split; [apply generateSqlAnalysis_nonempty |]. split; [| split].
  - intros c -> Hc. cbn. apply String.eqb_neq in Hc. now rewrite Hc.
  - intros [-> | ->]; reflexivity.
  - intros Hnot. destruct o as [err | detail | c]; [| | now contradiction (Hnot c)].
    + exists err. split; [reflexivity |]. cbn [App.generateSqlAnalysis].
      apply (matchSqlFence_skip_plain
               "Error connecting to backend API. Please ensure the server is running at http://localhost:8000. Error: ").
      reflexivity.
    + exists ("Error: " ++ App.orDefault detail "API request failed").
      split; [reflexivity |]. cbn [App.generateSqlAnalysis].
      apply (matchSqlFence_skip_plain
               "Error connecting to backend API. Please ensure the server is running at http://localhost:8000. Error: ").
      reflexivity.
Qed.

(** ** Diagram renderer *)

Section MermaidFacts.

Import Mermaid.




Lemma not_in_filter_self n (l : list nat) :
  ~ In n (filter (fun j => negb (Nat.eqb n j)) l).
Proof.
  intros H. apply filter_In in H as [_ H]. now rewrite Nat.eqb_refl in H.
Qed.





End MermaidFacts.


(** ** Markup escaping *)

Lemma replaceChar_app c b s t :
  replaceChar c b (s ++ t) = replaceChar c b s ++ replaceChar c b t.
Proof.
  induction s as [| a s IH]; [reflexivity |].
  cbn [append replaceChar]. now rewrite IH, append_assoc'.
Qed.

Lemma escapedCode_app s t : escapedCode (s ++ t) = escapedCode s ++ escapedCode t.
Proof. unfold escapedCode. now rewrite !replaceChar_app. Qed.

Lemma escapedCode_cons a s :
  escapedCode (String a s)
  = (if Ascii.eqb a "&" then "&amp;"
     else if Ascii.eqb a "<" then "&lt;"
     else if Ascii.eqb a ">" then "&gt;" else String a "") ++ escapedCode s.
Proof.
  change (String a s) with (String a "" ++ s). rewrite escapedCode_app. f_equal.
  destruct (Ascii.eqb a "&") eqn:E1; [apply Ascii.eqb_eq in E1; now subst a |].
  destruct (Ascii.eqb a "<") eqn:E2; [apply Ascii.eqb_eq in E2; now subst a |].
  destruct (Ascii.eqb a ">") eqn:E3; [apply Ascii.eqb_eq in E3; now subst a |].
  unfold escapedCode. cbn [replaceChar append]. rewrite E1. cbn [replaceChar append].
  rewrite E2. cbn [replaceChar append]. now rewrite E3.
Qed.

Lemma readEntities_escapedCode code : readEntities (escapedCode code) = code.
Proof.
  induction code as [| a code IH]; [reflexivity |].
  rewrite escapedCode_cons.
  destruct (Ascii.eqb a "&") eqn:E1.
  { apply Ascii.eqb_eq in E1. subst a.
    cbn [append readEntities]. rewrite IH. cbn. reflexivity. }
  destruct (Ascii.eqb a "<") eqn:E2.
  { apply Ascii.eqb_eq in E2. subst a.
    cbn [append readEntities]. rewrite IH. cbn. reflexivity. }
  destruct (Ascii.eqb a ">") eqn:E3.
  { apply Ascii.eqb_eq in E3. subst a.
    cbn [append readEntities]. rewrite IH. cbn. reflexivity. }
  cbn [append readEntities]. now rewrite E1, IH.
Qed.

(** X20.  The text the highlighting passes start from holds no angle
    bracket, whatever the code; the code can be read back from it, so two
    different codes never give the same text; escaping goes piece by
    piece; it never shortens the code; and code with none of the three
    replaced characters is left as it is. *)
Theorem escaped_code_has_no_markup (code other : string) :
  all_chars no_angle (escapedCode code) = true
  /\ readEntities (escapedCode code) = code
  /\ (escapedCode code = escapedCode other -> code = other)
  /\ escapedCode (code ++ other) = escapedCode code ++ escapedCode other
  /\ (String.length code <= String.length (escapedCode code))%nat
  /\ (all_chars no_markup code = true <-> escapedCode code = code).
Proof.
  split; [| split; [| split; [| split; [| split]]]].
  - induction code as [| a code IH]; [reflexivity |].
    rewrite escapedCode_cons, all_chars_app, IH, andb_true_r.
    destruct (Ascii.eqb a "&") eqn:E1; [reflexivity |].
    destruct (Ascii.eqb a "<") eqn:E2; [reflexivity |].
    destruct (Ascii.eqb a ">") eqn:E3; [reflexivity |].
    rewrite all_chars_cons. unfold no_angle. now rewrite E2, E3.
  - apply readEntities_escapedCode.
  - intros H. rewrite <- (readEntities_escapedCode code), H.
    apply readEntities_escapedCode.
  - apply escapedCode_app.
  - induction code as [| a code IH]; [apply Nat.le_refl |].
    rewrite escapedCode_cons.
    destruct (Ascii.eqb a "&"); [cbn [append String.length]; lia |].
    destruct (Ascii.eqb a "<"); [cbn [append String.length]; lia |].
    destruct (Ascii.eqb a ">"); cbn [append String.length]; lia.
  - induction code as [| a code IH]; [split; reflexivity |].
    rewrite escapedCode_cons, all_chars_cons. unfold no_markup at 1. unfold no_angle.
    destruct (Ascii.eqb a "&") eqn:E1.
    { apply Ascii.eqb_eq in E1. subst a. cbn. split; [discriminate |].
      intros [= H]. exfalso.
      assert (L : (String.length code <= String.length (escapedCode code))%nat).
      { clear. induction code as [| a code IH]; [apply Nat.le_refl |].
        rewrite escapedCode_cons.
        destruct (Ascii.eqb a "&"); [cbn [append String.length]; lia |].
        destruct (Ascii.eqb a "<"); [cbn [append String.length]; lia |].
        destruct (Ascii.eqb a ">"); cbn [append String.length]; lia. }
      rewrite <- H in L at 1. cbn [String.length] in L. lia. }
    destruct (Ascii.eqb a "<") eqn:E2.
    { apply Ascii.eqb_eq in E2. subst a. cbn. split; discriminate. }
    destruct (Ascii.eqb a ">") eqn:E3.
    { apply Ascii.eqb_eq in E3. subst a. cbn. split; discriminate. }
    cbn [negb andb append]. rewrite IH. split; [now intros -> | now intros [= ->]].
Qed.
